(** * LightPillar: a shallow embedding of [src/js/lightpillar.js]

    The development has two halves.

    - [Module Host] models the JavaScript class [LightPillar]: its
      constructor and option defaulting, [init], the [setup*] methods, the
      pointer and resize handlers with their timers, [animate],
      [showFallback] and [destroy].  The instance and the pieces of the
      page it touches form one explicit state record; every call into the
      browser or the graphics runtime is appended to an effect log.
      JavaScript numbers are modelled as exact rationals ([Q]): binary64
      rounding is outside the model.
    - [Module Shader] models the GLSL fragment shader as a function over
      the real numbers: the device's floating-point rounding is outside
      the model.  [Module Enclosure] is a fixed-point interval evaluator
      of the shader's field, proved sound against [Module Shader] and
      used to run the raymarch on enclosures of the exact real values.

    The definitions come first; the lemmas and the theorems on the
    specification's claims (C1 to C10) follow. *)

From Stdlib Require Import ZArith QArith Qminmax Qreals.
From Stdlib Require Import Bool List String Lia Lra Psatz.
From Stdlib Require Import Reals Arith.Factorial.
Import ListNotations.

(* ================================================================== *)
(** * Completions: normal return or a thrown JavaScript error *)
(* ================================================================== *)

(** The errors a method may throw: the [TypeError] of a member access on
    [null] or [undefined], and the specification's [ConfigurationError],
    which no statement of the class raises. *)
Inductive JsError : Type :=
| ConfigurationError
| TypeError.

Inductive completion (A : Type) : Type :=
| Normal (a : A)
| Throw (e : JsError).

Arguments Normal {A} a.
Arguments Throw {A} e.

Definition bind {A B : Type} (c : completion A) (k : A -> completion B)
  : completion B :=
  match c with
  | Normal a => k a
  | Throw e => Throw e
  end.

Notation "x <- c ;; k" := (bind c (fun x => k))
  (at level 61, c at next level, right associativity).

Module Host.

Open Scope Q_scope.

(* ------------------------------------------------------------------ *)
(** ** The options bag and the [||] defaulting of the constructor *)
(* ------------------------------------------------------------------ *)

(** The caller's options object.  A field is [None] when the property is
    absent ([undefined]). *)
Record Options : Type := mkOptions {
  o_topColor : option string;
  o_bottomColor : option string;
  o_intensity : option Q;
  o_rotationSpeed : option Q;
  o_interactive : option bool;
  o_glowAmount : option Q;
  o_pillarWidth : option Q;
  o_pillarHeight : option Q;
  o_noiseIntensity : option Q;
  o_pillarRotation : option Q;
  o_mixBlendMode : option string
}.

(** [options = {}] *)
Definition no_options : Options :=
  mkOptions None None None None None None None None None None None.

(** [v || d] on numbers: [undefined] and [0] are falsy. *)
Definition or_num (v : option Q) (d : Q) : Q :=
  match v with
  | Some q => if Qeq_bool q 0 then d else q
  | None => d
  end.

(** [v || d] on strings: [undefined] and the empty string are falsy. *)
Definition or_str (v : option string) (d : string) : string :=
  match v with
  | Some EmptyString => d
  | Some s => s
  | None => d
  end.

(** [v || d] on booleans. *)
Definition or_bool (v : option bool) (d : bool) : bool :=
  match v with
  | Some true => true
  | Some false => d
  | None => d
  end.

(** [this.options] *)
Record Config : Type := mkConfig {
  topColor : string;
  bottomColor : string;
  intensity : Q;
  rotationSpeed : Q;
  interactive : bool;
  glowAmount : Q;
  pillarWidth : Q;
  pillarHeight : Q;
  noiseIntensity : Q;
  pillarRotation : Q;
  mixBlendMode : string
}.

(** Lines 20-32: [this.options = { topColor: options.topColor || ..., ... }] *)
Definition resolve_options (options : Options) : Config :=
  {| topColor := or_str (o_topColor options) "#5227FF";
     bottomColor := or_str (o_bottomColor options) "#FF9FFC";
     intensity := or_num (o_intensity options) 1;
     rotationSpeed := or_num (o_rotationSpeed options) (3 # 10);
     interactive := or_bool (o_interactive options) false;
     glowAmount := or_num (o_glowAmount options) (5 # 1000);
     pillarWidth := or_num (o_pillarWidth options) 3;
     pillarHeight := or_num (o_pillarHeight options) (4 # 10);
     noiseIntensity := or_num (o_noiseIntensity options) (5 # 10);
     pillarRotation := or_num (o_pillarRotation options) 0;
     mixBlendMode := or_str (o_mixBlendMode options) "normal" |}.

(* ------------------------------------------------------------------ *)
(** ** The page, the graphics objects and the instance *)
(* ------------------------------------------------------------------ *)

(** The container element. *)
Record Container : Type := mkContainer {
  clientWidth : Z;
  clientHeight : Z;
  rectLeft : Q;            (* getBoundingClientRect() *)
  rectTop : Q;
  rectWidth : Q;
  rectHeight : Q;
  background : option string;   (* style.background *)
  hasCanvas : bool;             (* the renderer's canvas is a child *)
  mouseListener : bool          (* a mousemove listener is attached *)
}.

Definition set_background (v : option string) (c : Container) : Container :=
  match c with
  | mkContainer clientWidth clientHeight rectLeft rectTop rectWidth
      rectHeight _ hasCanvas mouseListener =>
      mkContainer clientWidth clientHeight rectLeft rectTop rectWidth
        rectHeight v hasCanvas mouseListener
  end.

Definition set_hasCanvas (v : bool) (c : Container) : Container :=
  match c with
  | mkContainer clientWidth clientHeight rectLeft rectTop rectWidth
      rectHeight background _ mouseListener =>
      mkContainer clientWidth clientHeight rectLeft rectTop rectWidth
        rectHeight background v mouseListener
  end.

Definition set_mouseListener (v : bool) (c : Container) : Container :=
  match c with
  | mkContainer clientWidth clientHeight rectLeft rectTop rectWidth
      rectHeight background hasCanvas _ =>
      mkContainer clientWidth clientHeight rectLeft rectTop rectWidth
        rectHeight background hasCanvas v
  end.

Definition set_clientSize (w h : Z) (c : Container) : Container :=
  match c with
  | mkContainer _ _ rectLeft rectTop rectWidth rectHeight background
      hasCanvas mouseListener =>
      mkContainer w h rectLeft rectTop rectWidth rectHeight background
        hasCanvas mouseListener
  end.

(** What the constructor finds in the page. *)
Record Page : Type := mkPage {
  element : option Container;   (* document.getElementById(containerId) *)
  webgl : bool;                 (* a throwaway canvas yields a context *)
  rendererThrows : bool;        (* new THREE.WebGLRenderer(...) throws *)
  devicePixelRatio : Q          (* window.devicePixelRatio *)
}.

(** [THREE.WebGLRenderer], as far as the class drives it: the logical size
    given to [setSize], the ratio given to [setPixelRatio] (1 until then)
    and the blend mode written on its canvas. *)
Record Renderer : Type := mkRenderer {
  width : Z;
  height : Z;
  pixelRatio : Q;
  canvasBlendMode : option string
}.

(** The uniforms of [this.material].  [uMouse] is absent here: its value
    is the object [this.mouse] itself, read at draw time.  The two colours
    are kept as the specs handed to the colour parser. *)
Record Material : Type := mkMaterial {
  uTime : Q;
  uResolution : Z * Z;
  uTopColor : string;
  uBottomColor : string;
  uIntensity : Q;
  uInteractive : bool;
  uGlowAmount : Q;
  uPillarWidth : Q;
  uPillarHeight : Q;
  uNoiseIntensity : Q;
  uPillarRotation : Q
}.

Definition set_uTime (v : Q) (m : Material) : Material :=
  match m with
  | mkMaterial _ uResolution uTopColor uBottomColor uIntensity
      uInteractive uGlowAmount uPillarWidth uPillarHeight uNoiseIntensity
      uPillarRotation =>
      mkMaterial v uResolution uTopColor uBottomColor uIntensity
        uInteractive uGlowAmount uPillarWidth uPillarHeight uNoiseIntensity
        uPillarRotation
  end.

Definition set_uResolution (v : Z * Z) (m : Material) : Material :=
  match m with
  | mkMaterial uTime _ uTopColor uBottomColor uIntensity uInteractive
      uGlowAmount uPillarWidth uPillarHeight uNoiseIntensity uPillarRotation
      =>
      mkMaterial uTime v uTopColor uBottomColor uIntensity uInteractive
        uGlowAmount uPillarWidth uPillarHeight uNoiseIntensity
        uPillarRotation
  end.

(** Calls that leave the instance. *)
Inductive Effect : Type :=
| ConsoleError
| ConsoleWarn
| SetSize (w h : Z)              (* renderer.setSize(w, h) *)
| SetPixelRatio (r : Q)          (* renderer.setPixelRatio(r) *)
| Draw (w h : Z) (t : Q)         (* renderer.render(scene, camera) *)
| PointerUpdate (x y : Q)        (* this.mouse.set(x, y) *)
| RequestFrame (id : positive)   (* requestAnimationFrame *)
| CancelFrame (id : positive)    (* cancelAnimationFrame *)
| RemoveMouseListener
| RemoveResizeListener
| DisposeRenderer
| ForceContextLoss
| RemoveCanvas
| DisposeMaterial
| DisposeGeometry.

Record State : Type := mkState {
  (* [this.container]: the element found by [getElementById], [None]
     for [null] *)
  container : option Container;
  (* [this.options], [None] while still [undefined] *)
  options : option Config;
  (* [this.mouse], the very object bound to the uniform [uMouse] *)
  mouse : Q * Q;
  time : Q;  (* [this.time] *)
  rafId : option positive;  (* [this.rafId] *)
  scene : bool;  (* [this.scene] has been created *)
  camera : bool;  (* [this.camera] has been created *)
  renderer : option Renderer;  (* [this.renderer] *)
  material : option Material;  (* [this.material] *)
  geometry : bool;  (* [this.geometry] has been created *)
  mesh : bool;  (* [this.mesh] has been created *)
  handleMouseMove : bool;  (* [this.handleMouseMove] has been defined *)
  (* closure variable of [handleMouseMove]: the pending timer,
     identified by the earliest instant at which it may fire *)
  mouseMoveTimeout : option Z;
  handleResize : bool;  (* [this.handleResize] has been defined *)
  (* closure variable of [handleResize]: the last timer id, never reset *)
  resizeTimeout : option Z;
  (* the host's pending debounce timer, if any, with its earliest
     firing instant *)
  resizePending : option Z;
  resizeListener : bool;  (* [window] carries the resize listener *)
  (* the host's pending animation-frame request *)
  rafPending : option positive;
  nextRaf : positive;  (* next request id the host hands out *)
  page : Page;  (* the host as the instance finds it *)
  (* calls into the host and the graphics runtime, latest first *)
  log : list Effect
}.

Definition set_container (v : option Container) (s : State) : State :=
  match s with
  | mkState _ options mouse time rafId scene camera renderer material
      geometry mesh handleMouseMove mouseMoveTimeout handleResize
      resizeTimeout resizePending resizeListener rafPending nextRaf page log
      =>
      mkState v options mouse time rafId scene camera renderer material
        geometry mesh handleMouseMove mouseMoveTimeout handleResize
        resizeTimeout resizePending resizeListener rafPending nextRaf page
        log
  end.

Definition set_options (v : option Config) (s : State) : State :=
  match s with
  | mkState container _ mouse time rafId scene camera renderer material
      geometry mesh handleMouseMove mouseMoveTimeout handleResize
      resizeTimeout resizePending resizeListener rafPending nextRaf page log
      =>
      mkState container v mouse time rafId scene camera renderer material
        geometry mesh handleMouseMove mouseMoveTimeout handleResize
        resizeTimeout resizePending resizeListener rafPending nextRaf page
        log
  end.

Definition set_mouse (v : Q * Q) (s : State) : State :=
  match s with
  | mkState container options _ time rafId scene camera renderer material
      geometry mesh handleMouseMove mouseMoveTimeout handleResize
      resizeTimeout resizePending resizeListener rafPending nextRaf page log
      =>
      mkState container options v time rafId scene camera renderer
        material geometry mesh handleMouseMove mouseMoveTimeout handleResize
        resizeTimeout resizePending resizeListener rafPending nextRaf page
        log
  end.

Definition set_time (v : Q) (s : State) : State :=
  match s with
  | mkState container options mouse _ rafId scene camera renderer material
      geometry mesh handleMouseMove mouseMoveTimeout handleResize
      resizeTimeout resizePending resizeListener rafPending nextRaf page log
      =>
      mkState container options mouse v rafId scene camera renderer
        material geometry mesh handleMouseMove mouseMoveTimeout handleResize
        resizeTimeout resizePending resizeListener rafPending nextRaf page
        log
  end.

Definition set_rafId (v : option positive) (s : State) : State :=
  match s with
  | mkState container options mouse time _ scene camera renderer material
      geometry mesh handleMouseMove mouseMoveTimeout handleResize
      resizeTimeout resizePending resizeListener rafPending nextRaf page log
      =>
      mkState container options mouse time v scene camera renderer
        material geometry mesh handleMouseMove mouseMoveTimeout handleResize
        resizeTimeout resizePending resizeListener rafPending nextRaf page
        log
  end.

Definition set_scene (v : bool) (s : State) : State :=
  match s with
  | mkState container options mouse time rafId _ camera renderer material
      geometry mesh handleMouseMove mouseMoveTimeout handleResize
      resizeTimeout resizePending resizeListener rafPending nextRaf page log
      =>
      mkState container options mouse time rafId v camera renderer
        material geometry mesh handleMouseMove mouseMoveTimeout handleResize
        resizeTimeout resizePending resizeListener rafPending nextRaf page
        log
  end.

Definition set_camera (v : bool) (s : State) : State :=
  match s with
  | mkState container options mouse time rafId scene _ renderer material
      geometry mesh handleMouseMove mouseMoveTimeout handleResize
      resizeTimeout resizePending resizeListener rafPending nextRaf page log
      =>
      mkState container options mouse time rafId scene v renderer material
        geometry mesh handleMouseMove mouseMoveTimeout handleResize
        resizeTimeout resizePending resizeListener rafPending nextRaf page
        log
  end.

Definition set_renderer (v : option Renderer) (s : State) : State :=
  match s with
  | mkState container options mouse time rafId scene camera _ material
      geometry mesh handleMouseMove mouseMoveTimeout handleResize
      resizeTimeout resizePending resizeListener rafPending nextRaf page log
      =>
      mkState container options mouse time rafId scene camera v material
        geometry mesh handleMouseMove mouseMoveTimeout handleResize
        resizeTimeout resizePending resizeListener rafPending nextRaf page
        log
  end.

Definition set_material (v : option Material) (s : State) : State :=
  match s with
  | mkState container options mouse time rafId scene camera renderer _
      geometry mesh handleMouseMove mouseMoveTimeout handleResize
      resizeTimeout resizePending resizeListener rafPending nextRaf page log
      =>
      mkState container options mouse time rafId scene camera renderer v
        geometry mesh handleMouseMove mouseMoveTimeout handleResize
        resizeTimeout resizePending resizeListener rafPending nextRaf page
        log
  end.

Definition set_geometry (v : bool) (s : State) : State :=
  match s with
  | mkState container options mouse time rafId scene camera renderer
      material _ mesh handleMouseMove mouseMoveTimeout handleResize
      resizeTimeout resizePending resizeListener rafPending nextRaf page log
      =>
      mkState container options mouse time rafId scene camera renderer
        material v mesh handleMouseMove mouseMoveTimeout handleResize
        resizeTimeout resizePending resizeListener rafPending nextRaf page
        log
  end.

Definition set_mesh (v : bool) (s : State) : State :=
  match s with
  | mkState container options mouse time rafId scene camera renderer
      material geometry _ handleMouseMove mouseMoveTimeout handleResize
      resizeTimeout resizePending resizeListener rafPending nextRaf page log
      =>
      mkState container options mouse time rafId scene camera renderer
        material geometry v handleMouseMove mouseMoveTimeout handleResize
        resizeTimeout resizePending resizeListener rafPending nextRaf page
        log
  end.

Definition set_handleMouseMove (v : bool) (s : State) : State :=
  match s with
  | mkState container options mouse time rafId scene camera renderer
      material geometry mesh _ mouseMoveTimeout handleResize resizeTimeout
      resizePending resizeListener rafPending nextRaf page log =>
      mkState container options mouse time rafId scene camera renderer
        material geometry mesh v mouseMoveTimeout handleResize resizeTimeout
        resizePending resizeListener rafPending nextRaf page log
  end.

Definition set_mouseMoveTimeout (v : option Z) (s : State) : State :=
  match s with
  | mkState container options mouse time rafId scene camera renderer
      material geometry mesh handleMouseMove _ handleResize resizeTimeout
      resizePending resizeListener rafPending nextRaf page log =>
      mkState container options mouse time rafId scene camera renderer
        material geometry mesh handleMouseMove v handleResize resizeTimeout
        resizePending resizeListener rafPending nextRaf page log
  end.

Definition set_handleResize (v : bool) (s : State) : State :=
  match s with
  | mkState container options mouse time rafId scene camera renderer
      material geometry mesh handleMouseMove mouseMoveTimeout _ resizeTimeout
      resizePending resizeListener rafPending nextRaf page log =>
      mkState container options mouse time rafId scene camera renderer
        material geometry mesh handleMouseMove mouseMoveTimeout v
        resizeTimeout resizePending resizeListener rafPending nextRaf page
        log
  end.

Definition set_resizeTimeout (v : option Z) (s : State) : State :=
  match s with
  | mkState container options mouse time rafId scene camera renderer
      material geometry mesh handleMouseMove mouseMoveTimeout handleResize _
      resizePending resizeListener rafPending nextRaf page log =>
      mkState container options mouse time rafId scene camera renderer
        material geometry mesh handleMouseMove mouseMoveTimeout handleResize
        v resizePending resizeListener rafPending nextRaf page log
  end.

Definition set_resizePending (v : option Z) (s : State) : State :=
  match s with
  | mkState container options mouse time rafId scene camera renderer
      material geometry mesh handleMouseMove mouseMoveTimeout handleResize
      resizeTimeout _ resizeListener rafPending nextRaf page log =>
      mkState container options mouse time rafId scene camera renderer
        material geometry mesh handleMouseMove mouseMoveTimeout handleResize
        resizeTimeout v resizeListener rafPending nextRaf page log
  end.

Definition set_resizeListener (v : bool) (s : State) : State :=
  match s with
  | mkState container options mouse time rafId scene camera renderer
      material geometry mesh handleMouseMove mouseMoveTimeout handleResize
      resizeTimeout resizePending _ rafPending nextRaf page log =>
      mkState container options mouse time rafId scene camera renderer
        material geometry mesh handleMouseMove mouseMoveTimeout handleResize
        resizeTimeout resizePending v rafPending nextRaf page log
  end.

Definition set_rafPending (v : option positive) (s : State) : State :=
  match s with
  | mkState container options mouse time rafId scene camera renderer
      material geometry mesh handleMouseMove mouseMoveTimeout handleResize
      resizeTimeout resizePending resizeListener _ nextRaf page log =>
      mkState container options mouse time rafId scene camera renderer
        material geometry mesh handleMouseMove mouseMoveTimeout handleResize
        resizeTimeout resizePending resizeListener v nextRaf page log
  end.

Definition set_nextRaf (v : positive) (s : State) : State :=
  match s with
  | mkState container options mouse time rafId scene camera renderer
      material geometry mesh handleMouseMove mouseMoveTimeout handleResize
      resizeTimeout resizePending resizeListener rafPending _ page log =>
      mkState container options mouse time rafId scene camera renderer
        material geometry mesh handleMouseMove mouseMoveTimeout handleResize
        resizeTimeout resizePending resizeListener rafPending v page log
  end.

Definition set_page (v : Page) (s : State) : State :=
  match s with
  | mkState container options mouse time rafId scene camera renderer
      material geometry mesh handleMouseMove mouseMoveTimeout handleResize
      resizeTimeout resizePending resizeListener rafPending nextRaf _ log =>
      mkState container options mouse time rafId scene camera renderer
        material geometry mesh handleMouseMove mouseMoveTimeout handleResize
        resizeTimeout resizePending resizeListener rafPending nextRaf v log
  end.

Definition set_log (v : list Effect) (s : State) : State :=
  match s with
  | mkState container options mouse time rafId scene camera renderer
      material geometry mesh handleMouseMove mouseMoveTimeout handleResize
      resizeTimeout resizePending resizeListener rafPending nextRaf page _ =>
      mkState container options mouse time rafId scene camera renderer
        material geometry mesh handleMouseMove mouseMoveTimeout handleResize
        resizeTimeout resizePending resizeListener rafPending nextRaf page v
  end.

Definition emit (e : Effect) (s : State) : State :=
  set_log (e :: log s) s.

(** The instance before the constructor has assigned anything. *)
Definition blank (p : Page) : State :=
  mkState None None (0, 0) 0 None false false None None false false
    false None false None None false None 1%positive p [].

(** [this.container.<member>]: a [TypeError] when the container is [null]. *)
Definition the_container (s : State) : completion Container :=
  match container s with
  | Some c => Normal c
  | None => Throw TypeError
  end.

(** [this.options.<member>]: a [TypeError] when [this.options] is
    [undefined]. *)
Definition the_options (s : State) : completion Config :=
  match options s with
  | Some o => Normal o
  | None => Throw TypeError
  end.

(* ------------------------------------------------------------------ *)
(** ** Methods of the class *)
(* ------------------------------------------------------------------ *)

(** Lines 295-299. *)
Definition showFallback (s : State) : completion State :=
  c <- the_container s ;;
  let c := set_background (Some "transparent"%string) c in
  Normal (emit ConsoleWarn (set_container (Some c) s)).

(** Lines 58-64. *)
Definition setupScene (s : State) : completion State :=
  _ <- the_container s ;;
  Normal (set_camera true (set_scene true s)).

(** Lines 71-82, the first statements of the [try] block of
    [setupRenderer] once the renderer object exists: [setSize],
    [setPixelRatio], [appendChild]. *)
Definition createRenderer (c : Container) (s : State) : State :=
  let width := clientWidth c in
  let height := clientHeight c in
  let ratio := Qmin (devicePixelRatio (page s)) 2 in
  emit (SetPixelRatio ratio)
    (emit (SetSize width height)
       (set_container (Some (set_hasCanvas true c))
          (set_renderer (Some (mkRenderer width height ratio None)) s))).

(** Line 83: [this.renderer.domElement.style.mixBlendMode = ...]. *)
Definition setBlendMode (mode : string) (s : State) : State :=
  match renderer s with
  | Some r =>
      set_renderer
        (Some (mkRenderer (width r) (height r) (pixelRatio r) (Some mode))) s
  | None => s
  end.

(** Lines 66-88: whatever is thrown inside the [try] block is caught,
    logged and answered by [showFallback]. *)
Definition setupRenderer (s : State) : completion State :=
  c <- the_container s ;;
  if rendererThrows (page s) then
    showFallback (emit ConsoleError s)
  else
    let s := createRenderer c s in
    match options s with
    | Some o => Normal (setBlendMode (mixBlendMode o) s)
    | None => showFallback (emit ConsoleError s)
    end.

(** Lines 95-238: the uniforms of the new material. *)
Definition setupMaterial (s : State) : completion State :=
  c <- the_container s ;;
  o <- the_options s ;;
  Normal (set_material
            (Some {| uTime := 0;
                     uResolution := (clientWidth c, clientHeight c);
                     uTopColor := topColor o;
                     uBottomColor := bottomColor o;
                     uIntensity := intensity o;
                     uInteractive := interactive o;
                     uGlowAmount := glowAmount o;
                     uPillarWidth := pillarWidth o;
                     uPillarHeight := pillarHeight o;
                     uNoiseIntensity := noiseIntensity o;
                     uPillarRotation := pillarRotation o |}) s).

(** Lines 240-244. *)
Definition setupMesh (s : State) : completion State :=
  if scene s then Normal (set_mesh true (set_geometry true s))
  else Throw TypeError.

(** Lines 246-283: the handlers are created and attached; their bodies
    are [onMouseMove], [mouseTimerFired], [onResize] and
    [resizeTimerFired] below. *)
Definition setupEventListeners (s : State) : completion State :=
  o <- the_options s ;;
  s1 <- (if interactive o then
           c <- the_container s ;;
           Normal (set_container (Some (set_mouseListener true c))
                     (set_mouseMoveTimeout None (set_handleMouseMove true s)))
         else Normal s) ;;
  Normal (set_resizeListener true
            (set_resizeTimeout None (set_handleResize true s1))).

(** The constant per-frame increment of line 288. *)
Definition fixedIncrement : Q := 16 # 1000.

(** [requestAnimationFrame(cb)]: the host hands out a fresh id and holds
    the request. *)
Definition requestAnimationFrame (s : State) : positive * State :=
  let id := nextRaf s in
  (id, emit (RequestFrame id)
         (set_nextRaf (Pos.succ id) (set_rafPending (Some id) s))).

(** Lines 285-293. *)
Definition animate (s : State) : completion State :=
  match material s, renderer s with
  | Some m, Some r =>
      if scene s && camera s then
        o <- the_options s ;;
        let t := time s + fixedIncrement * rotationSpeed o in
        let s1 := set_material (Some (set_uTime t m)) (set_time t s) in
        let s2 := emit (Draw (width r) (height r) t) s1 in
        let '(id, s3) := requestAnimationFrame s2 in
        Normal (set_rafId (Some id) s3)
      else Normal s
  | _, _ => Normal s
  end.

(** Lines 41-56. *)
Definition init (s : State) : completion State :=
  if negb (webgl (page s)) then showFallback s
  else
    s <- setupScene s ;;
    s <- setupRenderer s ;;
    s <- setupMaterial s ;;
    s <- setupMesh s ;;
    s <- setupEventListeners s ;;
    animate s.

(** Lines 4-39: [new LightPillar(containerId, options)]. *)
Definition construct (p : Page) (options : Options) : completion State :=
  let s := set_container (element p) (blank p) in
  match element p with
  | None => Normal (emit ConsoleError s)
  | Some c =>
      let s :=
        if (clientWidth c =? 0)%Z || (clientHeight c =? 0)%Z
        then emit ConsoleWarn (emit ConsoleWarn s) else s in
      let s := set_options (Some (resolve_options options)) s in
      let s := set_rafId None (set_time 0 (set_mouse (0, 0) s)) in
      init s
  end.

(** Lines 250-261: the body of [this.handleMouseMove] for an event
    delivered at instant [now] (milliseconds).  A bounding rectangle of
    width or height zero is outside the model: the quotient is then [0]
    here, where JavaScript yields an infinity or a NaN. *)
Definition onMouseMove (now : Z) (clientX clientY : Q) (s : State)
  : completion State :=
  match mouseMoveTimeout s with
  | Some _ => Normal s
  | None =>
      let s := set_mouseMoveTimeout (Some (now + 16)%Z) s in
      c <- the_container s ;;
      let x := ((clientX - rectLeft c) / rectWidth c) * 2 - 1 in
      let y := - ((clientY - rectTop c) / rectHeight c) * 2 + 1 in
      Normal (emit (PointerUpdate x y) (set_mouse (x, y) s))
  end.

(** Lines 253-255: the 16 ms timer's callback.  The host runs it no
    earlier than the instant stored with the timer. *)
Definition mouseTimerFired (now : Z) (s : State) : State :=
  match mouseMoveTimeout s with
  | Some due => if (due <=? now)%Z then set_mouseMoveTimeout None s else s
  | None => s
  end.

(** Lines 268-280, outer part: [this.handleResize] at instant [now]:
    any pending timer is cleared and a new one of 150 ms is started. *)
Definition onResize (now : Z) (s : State) : State :=
  let due := (now + 150)%Z in
  set_resizeTimeout (Some due) (set_resizePending (Some due) s).

(** Lines 274-278: the body of the debounce timer's callback. *)
Definition resizeCallback (s : State) : State :=
  match renderer s, material s, container s with
  | Some r, Some m, Some c =>
      let newWidth := clientWidth c in
      let newHeight := clientHeight c in
      emit (SetSize newWidth newHeight)
        (set_material (Some (set_uResolution (newWidth, newHeight) m))
           (set_renderer
              (Some (mkRenderer newWidth newHeight (pixelRatio r)
                       (canvasBlendMode r))) s))
  | _, _, _ => s
  end.

(** The host runs the debounce callback once its timer is due. *)
Definition resizeTimerFired (now : Z) (s : State) : State :=
  match resizePending s with
  | Some due =>
      if (due <=? now)%Z then resizeCallback (set_resizePending None s)
      else s
  | None => s
  end.

(** Lines 301-329. *)
Definition destroy (s : State) : completion State :=
  let s :=
    match rafId s with
    | Some id =>
        emit (CancelFrame id)
          (match rafPending s with
           | Some p => if Pos.eqb p id then set_rafPending None s else s
           | None => s
           end)
    | None => s
    end in
  o <- the_options s ;;
  s <- (if interactive o && handleMouseMove s then
          c <- the_container s ;;
          Normal (emit RemoveMouseListener
                    (set_container (Some (set_mouseListener false c)) s))
        else Normal s) ;;
  let s :=
    if handleResize s
    then emit RemoveResizeListener (set_resizeListener false s)
    else s in
  s <- match renderer s with
       | Some _ =>
           let s := emit ForceContextLoss (emit DisposeRenderer s) in
           c <- the_container s ;;
           if hasCanvas c
           then Normal (emit RemoveCanvas
                          (set_container (Some (set_hasCanvas false c)) s))
           else Normal s
       | None => Normal s
       end ;;
  let s :=
    match material s with
    | Some _ => emit DisposeMaterial s
    | None => s
    end in
  let s := if geometry s then emit DisposeGeometry s else s in
  Normal s.

(* ------------------------------------------------------------------ *)
(** ** The host's event loop *)
(* ------------------------------------------------------------------ *)

Inductive Event : Type :=
| Frame                               (* the requested frame is run *)
| MouseMove (now : Z) (clientX clientY : Q)
| MouseTimer (now : Z)                (* the throttle timer is served *)
| WindowResize (now : Z)
| ResizeTimer (now : Z)               (* the debounce timer is served *)
| Layout (w h : Z)                    (* the container's box changes *)
| Destroy.

Definition step (s : State) (e : Event) : completion State :=
  match e with
  | Frame =>
      match rafPending s with
      | Some _ => animate (set_rafPending None s)
      | None => Normal s
      end
  | MouseMove now x y =>
      match container s with
      | Some c =>
          if mouseListener c && handleMouseMove s
          then onMouseMove now x y s else Normal s
      | None => Normal s
      end
  | MouseTimer now => Normal (mouseTimerFired now s)
  | WindowResize now =>
      if resizeListener s && handleResize s
      then Normal (onResize now s) else Normal s
  | ResizeTimer now => Normal (resizeTimerFired now s)
  | Layout w h =>
      match container s with
      | Some c => Normal (set_container (Some (set_clientSize w h c)) s)
      | None => Normal s
      end
  | Destroy => destroy s
  end.

Fixpoint run (s : State) (es : list Event) : completion State :=
  match es with
  | [] => Normal s
  | e :: es' => s' <- step s e ;; run s' es'
  end.

(** The frame callback run [n] times in a row. *)
Fixpoint ticks (n : nat) (s : State) : completion State :=
  match n with
  | O => Normal s
  | S n' => s' <- animate s ;; ticks n' s'
  end.

(** How often an effect satisfying [f] was performed. *)
Definition performed (f : Effect -> bool) (s : State) : nat :=
  List.length (List.filter f (log s)).

Definition is_draw (e : Effect) : bool :=
  match e with Draw _ _ _ => true | _ => false end.

Definition is_pointer_update (e : Effect) : bool :=
  match e with PointerUpdate _ _ => true | _ => false end.

Definition is_dispose_renderer (e : Effect) : bool :=
  match e with DisposeRenderer => true | _ => false end.

Definition is_dispose_material (e : Effect) : bool :=
  match e with DisposeMaterial => true | _ => false end.

Definition is_dispose_geometry (e : Effect) : bool :=
  match e with DisposeGeometry => true | _ => false end.

(** The drawing-buffer extent the renderer derives from its logical size
    and pixel ratio (the graphics runtime's truncation to whole pixels is
    outside the model). *)
Definition effectiveSize (r : Renderer) : Q * Q :=
  (inject_Z (width r) * pixelRatio r, inject_Z (height r) * pixelRatio r).

(* ------------------------------------------------------------------ *)
(** ** The specification's vocabulary, for comparison with the code *)
(* ------------------------------------------------------------------ *)

(** The specification's [clamp(x, lo, hi)]. *)
Definition clamp (x lo hi : Q) : Q := Qmin (Qmax x lo) hi.

Definition below (bound : Q) (strict : bool) (v : option Q) : bool :=
  match v with
  | Some q => if strict then negb (Qle_bool bound q) else Qle_bool q bound
  | None => false
  end.

(** The specification's per-field constraints are violated: [intensity]
    or [noiseIntensity] below zero, or [glowAmount], [pillarWidth] or
    [pillarHeight] not above zero. *)
Definition violates_constraints (options : Options) : bool :=
  below 0 true (o_intensity options)
  || below 0 true (o_noiseIntensity options)
  || below 0 false (o_glowAmount options)
  || below 0 false (o_pillarWidth options)
  || below 0 false (o_pillarHeight options).

(** A pointer event or a service of the throttle timer inside the window
    of 16 ms that opens at [t0]. *)
Definition in_window (t0 : Z) (e : Event) : bool :=
  match e with
  | MouseMove now _ _ => (t0 <=? now)%Z && (now <? t0 + 16)%Z
  | MouseTimer now => (t0 <=? now)%Z && (now <? t0 + 16)%Z
  | _ => false
  end.

(** Which of the three graphics handles an instance holds. *)
Definition holds_renderer (s : State) : nat :=
  match renderer s with Some _ => 1 | None => 0 end.

Definition holds_material (s : State) : nat :=
  match material s with Some _ => 1 | None => 0 end.

Definition holds_geometry (s : State) : nat :=
  if geometry s then 1 else 0.

(* ------------------------------------------------------------------ *)
(** ** Sample pages and option bags *)
(* ------------------------------------------------------------------ *)

Definition sampleBox : Container :=
  mkContainer 800 600 0 0 800 600 None false false.

Definition samplePage : Page := mkPage (Some sampleBox) true false 1.

(** A page whose device pixel ratio is one half. *)
Definition coarsePage : Page := mkPage (Some sampleBox) true false (1 # 2).

(** A page whose device pixel ratio is three. *)
Definition densePage : Page := mkPage (Some sampleBox) true false 3.

(** A page without an accelerated context. *)
Definition plainPage : Page := mkPage (Some sampleBox) false false 1.

Definition with_rotationSpeed (v : Q) : Options :=
  mkOptions None None None (Some v) None None None None None None None.

Definition with_intensity (v : Q) : Options :=
  mkOptions None None (Some v) None None None None None None None None.

Definition interactiveOptions : Options :=
  mkOptions None None None None (Some true) None None None None None None.

(** A hundred pointer events at the instants [0] to [14], seven to the
    millisecond, sweeping the container from left to right. *)
Definition burst : list Event :=
  List.map
    (fun k => MouseMove (Z.of_nat (k / 7)) (inject_Z (Z.of_nat (8 * k))) 300)
    (List.seq 0 100).

(** The instance is animating: everything [animate] tests is present. *)
Definition running (o : Config) (s : State) : Prop :=
  options s = Some o /\ material s <> None /\ renderer s <> None /\
  scene s = true /\ camera s = true.

(* ------------------------------------------------------------------ *)
(** ** The page's own caller, and further vocabulary *)
(* ------------------------------------------------------------------ *)

(** Lines 345-357: the options the page passes. *)
Definition pageOptions : Options :=
  mkOptions (Some "#5227FF"%string) (Some "#FF9FFC"%string) (Some 1)
    (Some (3 # 10)) (Some false) (Some (5 # 1000)) (Some 3) (Some (4 # 10))
    (Some (5 # 10)) (Some 0) (Some "normal"%string).

(** Lines 333-360: the [DOMContentLoaded] handler, which returns without
    constructing anything when the container is missing.  Its own console
    messages are not recorded. *)
Definition bootstrap (p : Page) : completion (option State) :=
  match element p with
  | None => Normal None
  | Some _ => s <- construct p pageOptions ;; Normal (Some s)
  end.

(** The instance that [new LightPillar(...)] returns. *)
Definition built (p : Page) (options : Options) : State :=
  match construct p options with
  | Normal s => s
  | Throw _ => blank p
  end.

(** A page on which creating the renderer throws. *)
Definition brokenPage : Page := mkPage (Some sampleBox) true true 1.

(** A page without the container. *)
Definition emptyPage : Page := mkPage None true false 1.

(** [destroy()] called [n] times in a row. *)
Fixpoint destroys (n : nat) (s : State) : completion State :=
  match n with
  | O => Normal s
  | S n' => s' <- destroy s ;; destroys n' s'
  end.

Definition is_set_size (e : Effect) : bool :=
  match e with SetSize _ _ => true | _ => false end.

Definition is_request_frame (e : Effect) : bool :=
  match e with RequestFrame _ => true | _ => false end.

Definition is_cancel_frame (e : Effect) : bool :=
  match e with CancelFrame _ => true | _ => false end.

Definition is_remove_canvas (e : Effect) : bool :=
  match e with RemoveCanvas => true | _ => false end.

Definition is_destroy (e : Event) : bool :=
  match e with Destroy => true | _ => false end.

(** The events that reach the instance through a listener or a frame
    request: frames, pointer moves and window resizes. *)
Definition is_dispatched (e : Event) : bool :=
  match e with
  | Frame => true
  | MouseMove _ _ _ => true
  | WindowResize _ => true
  | _ => false
  end.

(** [this.options] and [this.container] are assigned. *)
Definition assigned (o : Config) (s : State) : Prop :=
  options s = Some o /\ container s <> None.

(** What every event keeps true of an instance built around a container:
    its options and container stay assigned, a pending frame request is
    the one [this.rafId] names, and a listener is attached only where its
    handler was defined (the pointer's on an interactive instance only). *)
Definition settled (o : Config) (s : State) : Prop :=
  options s = Some o /\
  (exists c, container s = Some c /\
             (mouseListener c = true ->
              interactive o = true /\ handleMouseMove s = true)) /\
  (rafPending s = None \/ rafPending s = rafId s) /\
  (resizeListener s = true -> handleResize s = true).

(** No frame is requested and no listener is attached. *)
Definition detached (s : State) : Prop :=
  rafPending s = None /\ resizeListener s = false /\
  forall c, container s = Some c -> mouseListener c = false.

End Host.

(* ================================================================== *)
(** * The fragment shader, over the real numbers *)
(* ================================================================== *)

Module Shader.

Open Scope R_scope.

Definition vec2 : Type := R * R.
Definition vec3 : Type := R * R * R.
Definition vec4 : Type := R * R * R * R.

(** A [mat2] is stored by columns, as [mat2(a, b, c, d)] fills it. *)
Record mat2 : Type := mkMat2 { col0 : vec2; col1 : vec2 }.

Definition dot2 (a b : vec2) : R := fst a * fst b + snd a * snd b.

(** [v * m], the product behind [v *= m]: a row vector times a matrix. *)
Definition mul_vm (v : vec2) (m : mat2) : vec2 :=
  (dot2 v (col0 m), dot2 v (col1 m)).

Definition length2 (v : vec2) : R := sqrt (fst v * fst v + snd v * snd v).

Definition length3 (v : vec3) : R :=
  let '(x, y, z) := v in sqrt (x * x + y * y + z * z).

Definition normalize3 (v : vec3) : vec3 :=
  let '(x, y, z) := v in
  let l := length3 v in (x / l, y / l, z / l).

Definition add3 (a b : vec3) : vec3 :=
  let '(ax, ay, az) := a in
  let '(bx, by_, bz) := b in (ax + bx, ay + by_, az + bz).

Definition scale3 (a : vec3) (k : R) : vec3 :=
  let '(ax, ay, az) := a in (ax * k, ay * k, az * k).

Definition map3 (f : R -> R) (a : vec3) : vec3 :=
  let '(ax, ay, az) := a in (f ax, f ay, f az).

Definition Rltb (x y : R) : bool := if Rlt_dec x y then true else false.

Definition fract (x : R) : R := frac_part x.

Definition clamp (x lo hi : R) : R := Rmin (Rmax x lo) hi.

(** GLSL [smoothstep]: Hermite interpolation of the clamped ratio. *)
Definition smoothstep (edge0 edge1 x : R) : R :=
  let t := clamp ((x - edge0) / (edge1 - edge0)) 0 1 in
  t * t * (3 - 2 * t).

(** GLSL [mix] on [vec3] with a scalar weight. *)
Definition mix3 (a b : vec3) (t : R) : vec3 :=
  add3 (scale3 a (1 - t)) (scale3 b t).

(** Lines 108-120. *)
Record Uniforms : Type := mkUniforms {
  uTime : R;
  uResolution : vec2;
  uMouse : vec2;
  uTopColor : vec3;
  uBottomColor : vec3;
  uIntensity : R;
  uInteractive : bool;
  uGlowAmount : R;
  uPillarWidth : R;
  uPillarHeight : R;
  uNoiseIntensity : R;
  uPillarRotation : R
}.

(** Lines 122-125. *)
Definition PI : R := 3.141592653589793.
Definition EPSILON : R := 0.001.
Definition E : R := 2.71828182845904523536.
Definition HALF : R := 0.5.

(** Lines 127-131. *)
Definition rot (angle : R) : mat2 :=
  let s := sin angle in
  let c := cos angle in
  mkMat2 (c, - s) (s, c).

(** Lines 133-137. *)
Definition noise (coord : vec2) : R :=
  let G := E in
  let r := (G * sin (G * fst coord), G * sin (G * snd coord)) in
  fract (fst r * snd r * (1 + fst coord)).

(** One pass of the loop of [applyWaveDeformation], lines 145-150. *)
Definition waveStep (i frequency amplitude timeOffset : R) (deformed : vec3)
  : vec3 :=
  let '(x, y, z) := deformed in
  let xz := mul_vm (x, z) (rot 0.4) in
  let x := fst xz in
  let z := snd xz in
  let phase := timeOffset * i * 2 in
  let oscillation :=
    (cos (z * frequency - phase), cos (x * frequency - phase),
     cos (y * frequency - phase)) in
  add3 (x, y, z) (scale3 oscillation amplitude).

(** The loop [for (float i = 0.0; i < 4.0; i++)] with [n] passes left. *)
Fixpoint waveLoop (n : nat) (i frequency amplitude timeOffset : R)
  (deformed : vec3) : vec3 :=
  match n with
  | O => deformed
  | S n' =>
      waveLoop n' (i + 1) (frequency * 2) (amplitude * HALF) timeOffset
        (waveStep i frequency amplitude timeOffset deformed)
  end.

(** Lines 139-153. *)
Definition applyWaveDeformation (pos : vec3) (timeOffset : R) : vec3 :=
  waveLoop 4 0 1 1 timeOffset pos.

(** Lines 155-159. *)
Definition blendMin (a b k : R) : R :=
  let scaledK := k * 4 in
  let h := Rmax (scaledK - Rabs (a - b)) 0 in
  Rmin a b - h * h * 0.25 / scaledK.

(** Lines 161-163. *)
Definition blendMax (a b k : R) : R := - blendMin (- a) (- b) k.

(** Lines 166-170: the aspect-corrected, rotated pixel coordinate. *)
Definition screenCoord (u : Uniforms) (vUv : vec2) : vec2 :=
  let fragCoord := (fst vUv * fst (uResolution u),
                    snd vUv * snd (uResolution u)) in
  let uv := ((fst fragCoord * 2 - fst (uResolution u)) / snd (uResolution u),
             (snd fragCoord * 2 - snd (uResolution u)) / snd (uResolution u)) in
  let rotAngle := uPillarRotation u * PI / 180 in
  mul_vm uv (rot rotAngle).

Definition origin : vec3 := (0, 0, -10).
Definition maxDepth : R := 50.
Definition startDepth : R := 0.1.

(** Lines 178-181: the angle whose rotation [rotX] holds after the [if]. *)
Definition horizontalAngle (u : Uniforms) : R :=
  if uInteractive u && Rltb 0 (length2 (uMouse u))
  then fst (uMouse u) * PI * 2
  else uTime u * 0.3.

Definition rotX (u : Uniforms) : mat2 := rot (horizontalAngle u).

(** Lines 186-187: the sample position at a depth. *)
Definition samplePos (u : Uniforms) (direction : vec3) (depth : R) : vec3 :=
  let '(px, py, pz) := add3 origin (scale3 direction depth) in
  let xz := mul_vm (px, pz) (rotX u) in
  (fst xz, py, snd xz).

(** Lines 189-198: the field value at a sample position. *)
Definition fieldDistance (u : Uniforms) (pos : vec3) : R :=
  let '(px, py, pz) := pos in
  let deformed := (px, py * uPillarHeight u, pz) in
  let deformed :=
    applyWaveDeformation (add3 deformed (0, uTime u, 0)) (uTime u) in
  let '(dx, _, dz) := deformed in
  let cosinePair := (cos dx, cos dz) in
  let fieldDistance := length2 cosinePair - 0.2 in
  let radialBound := length2 (px, pz) - uPillarWidth u in
  let fieldDistance := blendMax radialBound fieldDistance 1 in
  Rabs fieldDistance * 0.15 + 0.01.

(** Lines 200-201: the colour added by one sample. *)
Definition glow (u : Uniforms) (pos : vec3) (fieldDistance : R) : vec3 :=
  let '(_, py, _) := pos in
  let gradient :=
    mix3 (uBottomColor u) (uTopColor u) (smoothstep 15 (-15) py) in
  scale3 gradient (Rpower (1 / fieldDistance) 1).

(** How the loop of lines 185-205 ended: by its [break] at pass [i], with
    the truth of the two disjuncts of line 203, or by running out of
    passes. *)
Inductive LoopExit : Type :=
| Break (i : nat) (hit : bool) (tooDeep : bool)
| Exhausted.

Record Marched : Type := mkMarched {
  exit : LoopExit;
  finalDepth : R;
  finalColor : vec3
}.

(** The loop [for (float i = 0.0; i < 100.0; i++)] with [n] passes left,
    entering pass [i]. *)
Fixpoint march (n i : nat) (u : Uniforms) (direction : vec3) (depth : R)
  (color : vec3) : Marched :=
  match n with
  | O => mkMarched Exhausted depth color
  | S n' =>
      let pos := samplePos u direction depth in
      let fd := fieldDistance u pos in
      let color := add3 color (glow u pos fd) in
      let hit := Rltb fd EPSILON in
      let tooDeep := Rltb maxDepth depth in
      if hit || tooDeep then mkMarched (Break i hit tooDeep) depth color
      else march n' (S i) u direction (depth + fd) color
  end.

(** The march of the pixel whose rotated coordinate is [uv]. *)
Definition raymarch (u : Uniforms) (uv : vec2) : Marched :=
  let direction := normalize3 (fst uv, snd uv, 1) in
  march 100 0 u direction startDepth (0, 0, 0).

(** The number of passes whose body was entered. *)
Definition passes (m : Marched) : nat :=
  match exit m with
  | Break i _ _ => S i
  | Exhausted => 100
  end.

(** Lines 165-214: [main], returning [gl_FragColor]. *)
Definition main (u : Uniforms) (vUv gl_FragCoord : vec2) : vec4 :=
  let uv := screenCoord u vUv in
  let color := finalColor (raymarch u uv) in
  let widthNormalization := uPillarWidth u / 3 in
  let color :=
    map3 (fun c => tanh (c * uGlowAmount u / widthNormalization)) color in
  let rnd := noise gl_FragCoord in
  let color := map3 (fun c => c - rnd / 15 * uNoiseIntensity u) color in
  let '(r, g, b) := scale3 color (uIntensity u) in
  (r, g, b, 1).

(** The uniforms with another pointer position bound to [uMouse]. *)
Definition withMouse (m : vec2) (u : Uniforms) : Uniforms :=
  mkUniforms (uTime u) (uResolution u) m (uTopColor u) (uBottomColor u)
    (uIntensity u) (uInteractive u) (uGlowAmount u) (uPillarWidth u)
    (uPillarHeight u) (uNoiseIntensity u) (uPillarRotation u).

(** The uniforms of the page's own instance at time zero, on a surface of
    [800 x 600], with the two colours as normalised triples. *)
Definition pageUniforms : Uniforms :=
  mkUniforms 0 (800, 600) (0, 0) (82 / 255, 39 / 255, 1)
    (1, 159 / 255, 252 / 255) 1 false 0.005 3 0.4 0.5 0.

(** The same uniforms on an interactive instance whose pointer is at
    [(0.5, 0)]. *)
Definition pointedUniforms : Uniforms :=
  mkUniforms 0 (800, 600) (0.5, 0) (82 / 255, 39 / 255, 1)
    (1, 159 / 255, 252 / 255) 1 true 0.005 3 0.4 0.5 0.

(** Each component of a colour is at least zero. *)
Definition nonneg3 (v : vec3) : Prop :=
  let '(x, y, z) := v in 0 <= x /\ 0 <= y /\ 0 <= z.

End Shader.

(* ================================================================== *)
(** * Fixed-point interval evaluation of the field *)
(* ================================================================== *)

(** An integer [m] stands for the real [m / 2^prec]; an interval is a pair
    of such bounds.  Every operation rounds its lower bound down and its
    upper bound up, so that the result encloses the exact real value.  The
    functions below follow [Shader.fieldDistance] and [Shader.march]
    operation by operation. *)
Module Enclosure.

Open Scope Z_scope.

Definition prec : Z := 96.
Definition one : Z := 2 ^ prec.

Record interval : Type := mkI { lo : Z; hi : Z }.

(** Division rounding up, for a positive divisor. *)
Definition cdiv (a b : Z) : Z := - ((- a) / b).

(** Rescaling of a double-width product, rounding down and up. *)
Definition scale_down (a : Z) : Z := Z.shiftr a prec.
Definition scale_up (a : Z) : Z := - Z.shiftr (- a) prec.

Definition of_Z (z : Z) : interval := mkI (z * one) (z * one).

Definition of_Q (q : Q) : interval :=
  mkI (Qnum q * one / Zpos (Qden q)) (cdiv (Qnum q * one) (Zpos (Qden q))).

Definition add (a b : interval) : interval :=
  mkI (lo a + lo b) (hi a + hi b).

Definition neg (a : interval) : interval := mkI (- hi a) (- lo a).

Definition sub (a b : interval) : interval := add a (neg b).

Definition mul (a b : interval) : interval :=
  let p1 := lo a * lo b in
  let p2 := lo a * hi b in
  let p3 := hi a * lo b in
  let p4 := hi a * hi b in
  mkI (scale_down (Z.min (Z.min p1 p2) (Z.min p3 p4)))
      (scale_up (Z.max (Z.max p1 p2) (Z.max p3 p4))).

(** Division by a positive integer. *)
Definition divz (a : interval) (d : Z) : interval :=
  mkI (lo a / d) (cdiv (hi a) d).

Definition abs (a : interval) : interval :=
  if 0 <=? lo a then a
  else if hi a <=? 0 then neg a
  else mkI 0 (Z.max (- lo a) (hi a)).

Definition max (a b : interval) : interval :=
  mkI (Z.max (lo a) (lo b)) (Z.max (hi a) (hi b)).

Definition min (a b : interval) : interval :=
  mkI (Z.min (lo a) (lo b)) (Z.min (hi a) (hi b)).

Definition sqrt (a : interval) : interval :=
  mkI (Z.sqrt (Z.max (lo a) 0 * one)) (Z.sqrt (Z.max (hi a) 0 * one) + 1).

Definition halve (a : interval) : interval := divz a 2.

Definition unit_range : interval := mkI (- one) one.

(** [n] further terms of an alternating power series in [y]: from term
    [t] of index [i] and the partial sum [acc] up to it, the next term is
    [- t y / ((2i + k + 1) (2i + k + 2))], with [k = 0] for the cosine and
    [k = 1] for the sine.  Returns the last term and the last sum. *)
Fixpoint series (k : nat) (n i : nat) (y t acc : interval)
  : interval * interval :=
  match n with
  | O => (t, acc)
  | S n' =>
      let d := Z.of_nat ((2 * i + k + 1) * (2 * i + k + 2)) in
      let t' := neg (divz (mul t y) d) in
      series k n' (S i) y t' (add acc t')
  end.

(** Half the number of series terms summed. *)
Definition terms : nat := 4.

(** An enclosure between the partial sums of odd index [2 terms + 1]
    (below) and even index [2 terms + 2] (above). *)
Definition between_sums (k : nat) (y t0 : interval) : interval :=
  let '(t, odd) := series k (2 * terms + 1) 0 y t0 t0 in
  let '(_, even) := series k 1 (2 * terms + 1) y t odd in
  mkI (lo odd) (hi even).

(** Is the interval inside [[-1/8, 1/8]]? *)
Definition small (x : interval) : bool :=
  (- one <=? 8 * lo x) && (8 * hi x <=? one).

(** The cosine of a small argument. *)
Definition cos_small (x : interval) : interval :=
  between_sums 0 (mul x x) (of_Z 1).

(** [cos (2 a) = 2 cos^2 a - 1]. *)
Definition double_angle (c : interval) : interval :=
  sub (mul (of_Z 2) (mul c c)) (of_Z 1).

(** The cosine, by halving the argument until it is small. *)
Fixpoint cos_halving (fuel : nat) (x : interval) : interval :=
  if small x then cos_small x
  else
    match fuel with
    | O => unit_range
    | S fuel' => double_angle (cos_halving fuel' (halve x))
    end.

Definition cos (x : interval) : interval := cos_halving 64 x.

(** The sine of an argument in [[0, 4]]. *)
Definition sin (x : interval) : interval :=
  if (0 <=? lo x) && (hi x <=? 4 * one)
  then between_sums 1 (mul x x) x
  else unit_range.

Definition ivec3 : Type := interval * interval * interval.

(** [Shader.mul_vm (x, z) (Shader.rot angle)], given enclosures [c] and
    [s] of the cosine and sine of the angle. *)
Definition rotate (x z c s : interval) : interval * interval :=
  (add (mul x c) (mul z (neg s)), add (mul x s) (mul z c)).

(** [Shader.waveStep], given enclosures of [cos 0.4] and [sin 0.4]. *)
Definition waveStep (c s i frequency amplitude timeOffset : interval)
  (deformed : ivec3) : ivec3 :=
  let '(x, y, z) := deformed in
  let xz := rotate x z c s in
  let x := fst xz in
  let z := snd xz in
  let phase := mul (mul timeOffset i) (of_Z 2) in
  let ox := cos (sub (mul z frequency) phase) in
  let oy := cos (sub (mul x frequency) phase) in
  let oz := cos (sub (mul y frequency) phase) in
  (add x (mul ox amplitude), add y (mul oy amplitude),
   add z (mul oz amplitude)).

(** [Shader.waveLoop]. *)
Fixpoint waveLoop (c s : interval) (n : nat)
  (i frequency amplitude timeOffset : interval) (deformed : ivec3) : ivec3 :=
  match n with
  | O => deformed
  | S n' =>
      waveLoop c s n' (add i (of_Z 1)) (mul frequency (of_Z 2))
        (mul amplitude (of_Q (0.5)%Q)) timeOffset
        (waveStep c s i frequency amplitude timeOffset deformed)
  end.

(** [Shader.blendMin] with [k = 1], where [scaledK] is [4]. *)
Definition blendMin1 (a b : interval) : interval :=
  let h := max (sub (of_Z 4) (abs (sub a b))) (of_Z 0) in
  sub (min a b) (divz (mul (mul h h) (of_Q (0.25)%Q)) 4).

Definition blendMax1 (a b : interval) : interval :=
  neg (blendMin1 (neg a) (neg b)).

Definition length2 (x y : interval) : interval :=
  sqrt (add (mul x x) (mul y y)).

(** [Shader.fieldDistance] for enclosures of the three uniforms it reads
    and of the sample position. *)
Definition fieldDistance (c s time pillarWidth pillarHeight : interval)
  (pos : ivec3) : interval :=
  let '(px, py, pz) := pos in
  let deformed :=
    waveLoop c s 4 (of_Z 0) (of_Z 1) (of_Z 1) time
      (add px (of_Z 0), add (mul py pillarHeight) time, add pz (of_Z 0)) in
  let '(dx, _, dz) := deformed in
  let fd := sub (length2 (cos dx) (cos dz)) (of_Q (0.2)%Q) in
  let radialBound := sub (length2 px pz) pillarWidth in
  let fd := blendMax1 radialBound fd in
  add (mul (abs fd) (of_Q (0.15)%Q)) (of_Q (0.01)%Q).

(** [Shader.march] along the view axis (direction [(0, 0, 1)], no
    horizontal rotation): [Some i] when the loop surely breaks at pass
    [i] because the depth exceeds [maxDepth], [None] when the enclosures
    do not decide the comparison or the passes run out. *)
Fixpoint marchLoop (c s : interval) (n i : nat)
  (time pillarWidth pillarHeight depth : interval) : option nat :=
  match n with
  | O => None
  | S n' =>
      if 50 * one <? lo depth then Some i
      else if hi depth <=? 50 * one then
        let pos := (of_Z 0, of_Z 0, add (of_Z (-10)) depth) in
        let fd := fieldDistance c s time pillarWidth pillarHeight pos in
        marchLoop c s n' (S i) time pillarWidth pillarHeight (add depth fd)
      else None
  end.

Definition march (n : nat) (time pillarWidth pillarHeight depth : interval)
  : option nat :=
  let angle := of_Q (0.4)%Q in
  let c := cos angle in
  let s := sin angle in
  marchLoop c s n 0 time pillarWidth pillarHeight depth.

(** The real number an integer stands for is obtained by dividing by
    [scale]. *)
Definition scale : R := IZR one.

(** [contains a x]: the real [x] lies in the interval [a]. *)
Definition contains (a : interval) (x : R) : Prop :=
  (IZR (lo a) <= x * scale <= IZR (hi a))%R.

Definition contains3 (a : ivec3) (v : Shader.vec3) : Prop :=
  let '(ax, ay, az) := a in
  let '(x, y, z) := v in
  contains ax x /\ contains ay y /\ contains az z.

(** A sequence of terms obeying the recurrence that [series k] follows. *)
Definition recurrent (k : nat) (y : R) (T : nat -> R) : Prop :=
  forall i : nat,
    T (S i)
    = (- (T i * y / IZR (Z.of_nat ((2 * i + k + 1) * (2 * i + k + 2)))))%R.

End Enclosure.

(* ================================================================== *)
(** * Soundness of the interval evaluator *)
(* ================================================================== *)

Section EnclosureFacts.

Import Enclosure.
Open Scope R_scope.

Lemma one_pos : (0 < one)%Z.
Proof. reflexivity. Qed.

Lemma scale_pos : 0 < scale.
Proof. unfold scale. apply IZR_lt. exact one_pos. Qed.

Lemma floor_div_le (a d : Z) : (0 < d)%Z -> IZR (a / d) * IZR d <= IZR a.
Proof.
  intro Hd. rewrite <- mult_IZR. apply IZR_le.
  rewrite Z.mul_comm. apply Z.mul_div_le. exact Hd.
Qed.

Lemma cdiv_ge (a d : Z) : (0 < d)%Z -> IZR a <= IZR (cdiv a d) * IZR d.
Proof.
  intro Hd. unfold cdiv. rewrite opp_IZR.
  pose proof (floor_div_le (- a) d Hd) as H. rewrite opp_IZR in H. lra.
Qed.

Lemma scale_down_le (a : Z) : IZR (scale_down a) * scale <= IZR a.
Proof.
  unfold scale_down, scale. rewrite Z.shiftr_div_pow2 by (unfold prec; lia).
  apply floor_div_le. exact one_pos.
Qed.

Lemma scale_up_ge (a : Z) : IZR a <= IZR (scale_up a) * scale.
Proof.
  unfold scale_up. rewrite opp_IZR.
  pose proof (scale_down_le (- a)) as H. unfold scale_down in H.
  rewrite opp_IZR in H. lra.
Qed.

Lemma contains_of_Z (z : Z) : contains (of_Z z) (IZR z).
Proof.
  unfold contains, of_Z, scale; simpl. rewrite mult_IZR. lra.
Qed.

Lemma contains_of_Q (q : Q) : contains (of_Q q) (Q2R q).
Proof.
  unfold contains, of_Q; simpl.
  assert (Hd : (0 < Zpos (Qden q))%Z) by reflexivity.
  pose proof (floor_div_le (Qnum q * one) _ Hd) as Hl.
  pose proof (cdiv_ge (Qnum q * one) _ Hd) as Hu.
  rewrite mult_IZR in Hl, Hu. fold scale in Hl, Hu.
  assert (Hp : 0 < IZR (Zpos (Qden q))) by (apply IZR_lt; exact Hd).
  unfold Q2R. set (d := IZR (Zpos (Qden q))) in *.
  set (n := IZR (Qnum q)) in *.
  assert (Heq : n * / d * scale * d = n * scale) by (field; lra).
  split.
  - apply Rmult_le_reg_r with d; [exact Hp | lra].
  - apply Rmult_le_reg_r with d; [exact Hp | lra].
Qed.

Lemma contains_add a b x y :
  contains a x -> contains b y -> contains (add a b) (x + y).
Proof.
  unfold contains, add; simpl. rewrite !plus_IZR. lra.
Qed.

Lemma contains_neg a x : contains a x -> contains (neg a) (- x).
Proof.
  unfold contains, neg; simpl. rewrite !opp_IZR. lra.
Qed.

Lemma contains_sub a b x y :
  contains a x -> contains b y -> contains (sub a b) (x - y).
Proof.
  intros Ha Hb. unfold sub, Rminus.
  apply contains_add; [exact Ha | apply contains_neg; exact Hb].
Qed.

(** The product of two bounded reals lies between the extreme products of
    the bounds. *)
Lemma product_lower (a b c d x y : R) :
  a <= x <= b -> c <= y <= d ->
  a * c <= x * y \/ a * d <= x * y \/ b * c <= x * y \/ b * d <= x * y.
Proof.
  intros Hx Hy.
  destruct (Rle_lt_dec 0 y) as [Hy0 | Hy0].
  - assert (H1 : 0 <= (x - a) * y) by (apply Rmult_le_pos; lra).
    destruct (Rle_lt_dec 0 a) as [Ha | Ha].
    + left. assert (H2 : 0 <= a * (y - c)) by (apply Rmult_le_pos; lra). lra.
    + right; left.
      assert (H2 : 0 <= (- a) * (d - y)) by (apply Rmult_le_pos; lra). lra.
  - assert (H1 : 0 <= (b - x) * (- y)) by (apply Rmult_le_pos; lra).
    destruct (Rle_lt_dec 0 b) as [Hb | Hb].
    + right; right; left.
      assert (H2 : 0 <= b * (y - c)) by (apply Rmult_le_pos; lra). lra.
    + right; right; right.
      assert (H2 : 0 <= (- b) * (d - y)) by (apply Rmult_le_pos; lra). lra.
Qed.

Lemma product_upper (a b c d x y : R) :
  a <= x <= b -> c <= y <= d ->
  x * y <= a * c \/ x * y <= a * d \/ x * y <= b * c \/ x * y <= b * d.
Proof.
  intros Hx Hy.
  assert (H : - b <= - x <= - a) by lra.
  destruct (product_lower _ _ _ _ _ _ H Hy) as [H1 | [H1 | [H1 | H1]]].
  - right; right; left; lra.
  - right; right; right; lra.
  - left; lra.
  - right; left; lra.
Qed.

Lemma contains_mul a b x y :
  contains a x -> contains b y -> contains (mul a b) (x * y).
Proof.
  unfold contains, mul; simpl. intros Ha Hb.
  set (p1 := (lo a * lo b)%Z). set (p2 := (lo a * hi b)%Z).
  set (p3 := (hi a * lo b)%Z). set (p4 := (hi a * hi b)%Z).
  pose proof scale_pos as Hs.
  assert (Hxy : x * y * scale * scale = (x * scale) * (y * scale)) by ring.
  split.
  - set (m := Z.min (Z.min p1 p2) (Z.min p3 p4)).
    pose proof (scale_down_le m) as Hm.
    assert (Hle : IZR m <= (x * scale) * (y * scale)).
    { destruct (product_lower _ _ _ _ _ _ Ha Hb) as [H | [H | [H | H]]];
        rewrite <- mult_IZR in H; (eapply Rle_trans; [ | exact H ]);
        apply IZR_le; unfold m, p1, p2, p3, p4; lia. }
    apply Rmult_le_reg_r with scale; [exact Hs | lra].
  - set (m := Z.max (Z.max p1 p2) (Z.max p3 p4)).
    pose proof (scale_up_ge m) as Hm.
    assert (Hle : (x * scale) * (y * scale) <= IZR m).
    { destruct (product_upper _ _ _ _ _ _ Ha Hb) as [H | [H | [H | H]]];
        rewrite <- mult_IZR in H; (eapply Rle_trans; [ exact H | ]);
        apply IZR_le; unfold m, p1, p2, p3, p4; lia. }
    apply Rmult_le_reg_r with scale; [exact Hs | lra].
Qed.

Lemma contains_divz a x (d : Z) :
  (0 < d)%Z -> contains a x -> contains (divz a d) (x / IZR d).
Proof.
  unfold contains, divz; simpl. intros Hd Ha.
  pose proof (floor_div_le (lo a) d Hd) as Hl.
  pose proof (cdiv_ge (hi a) d Hd) as Hu.
  assert (Hp : 0 < IZR d) by (apply IZR_lt; exact Hd).
  assert (Heq : x / IZR d * scale * IZR d = x * scale) by (field; lra).
  split; apply Rmult_le_reg_r with (IZR d); try exact Hp; lra.
Qed.

Lemma contains_halve a x : contains a x -> contains (halve a) (x / 2).
Proof. intro H. apply (contains_divz a x 2); [reflexivity | exact H]. Qed.

Lemma contains_abs a x : contains a x -> contains (abs a) (Rabs x).
Proof.
  unfold abs. intro Ha. pose proof scale_pos as Hs.
  destruct (Z.leb_spec 0 (lo a)) as [Hl | Hl].
  - assert (0 <= x).
    { apply IZR_le in Hl. destruct Ha as [Ha _]. nra. }
    rewrite Rabs_pos_eq by assumption. exact Ha.
  - destruct (Z.leb_spec (hi a) 0) as [Hh | Hh].
    + assert (x <= 0).
      { apply IZR_le in Hh. destruct Ha as [_ Ha]. nra. }
      rewrite Rabs_left1 by assumption. apply contains_neg. exact Ha.
    + unfold contains in *; simpl.
      assert (Hm1 : IZR (- lo a) <= IZR (Z.max (- lo a) (hi a)))
        by (apply IZR_le; lia).
      assert (Hm2 : IZR (hi a) <= IZR (Z.max (- lo a) (hi a)))
        by (apply IZR_le; lia).
      rewrite opp_IZR in Hm1.
      pose proof (Rabs_pos x).
      split; [nra | ].
      unfold Rabs; destruct (Rcase_abs x); lra.
Qed.

Lemma contains_max a b x y :
  contains a x -> contains b y -> contains (max a b) (Rmax x y).
Proof.
  unfold contains, max; simpl. intros Ha Hb.
  pose proof scale_pos as Hs.
  pose proof (Rmax_l x y). pose proof (Rmax_r x y).
  split.
  - destruct (Z.max_spec (lo a) (lo b)) as [[_ ->] | [_ ->]]; nra.
  - assert (IZR (hi a) <= IZR (Z.max (hi a) (hi b))) by (apply IZR_le; lia).
    assert (IZR (hi b) <= IZR (Z.max (hi a) (hi b))) by (apply IZR_le; lia).
    unfold Rmax; destruct (Rle_dec x y); lra.
Qed.

Lemma contains_min a b x y :
  contains a x -> contains b y -> contains (min a b) (Rmin x y).
Proof.
  unfold contains, min; simpl. intros Ha Hb.
  pose proof scale_pos as Hs.
  pose proof (Rmin_l x y). pose proof (Rmin_r x y).
  split.
  - assert (IZR (Z.min (lo a) (lo b)) <= IZR (lo a)) by (apply IZR_le; lia).
    assert (IZR (Z.min (lo a) (lo b)) <= IZR (lo b)) by (apply IZR_le; lia).
    unfold Rmin; destruct (Rle_dec x y); lra.
  - destruct (Z.min_spec (hi a) (hi b)) as [[_ ->] | [_ ->]]; nra.
Qed.

(** ** Square roots, series, cosine and sine *)

Lemma contains_sqrt a x : contains a x -> contains (sqrt a) (R_sqrt.sqrt x).
Proof.
  unfold contains, sqrt; simpl. intros [Hl Hh].
  pose proof scale_pos as Hs.
  assert (Hzl : (0 <= Z.max (lo a) 0 * one)%Z) by (pose proof one_pos; nia).
  assert (Hzh : (0 <= Z.max (hi a) 0 * one)%Z) by (pose proof one_pos; nia).
  pose proof (Z.sqrt_spec _ Hzl) as [HL _].
  pose proof (Z.sqrt_spec _ Hzh) as [_ HH].
  pose proof (Z.sqrt_nonneg (Z.max (lo a) 0 * one)) as HLn.
  pose proof (Z.sqrt_nonneg (Z.max (hi a) 0 * one)) as HHn.
  revert HL HH HLn HHn.
  generalize (Z.sqrt (Z.max (lo a) 0 * one)) as m.
  generalize (Z.sqrt (Z.max (hi a) 0 * one)) as n.
  intros n m HL HH HLn HHn.
  apply IZR_le in HL, HLn, HHn. apply IZR_lt in HH.
  rewrite !mult_IZR in HL. rewrite !mult_IZR in HH.
  rewrite succ_IZR in HH. fold scale in HL, HH. rewrite plus_IZR.
  destruct (Rle_lt_dec 0 x) as [Hx | Hx].
  - pose proof (sqrt_pos x) as Hsp.
    pose proof (sqrt_sqrt x Hx) as Hsq.
    revert Hsp Hsq. generalize (R_sqrt.sqrt x) as s. intros s Hsp Hsq.
    assert (Hxs : 0 <= x * scale) by (apply Rmult_le_pos; lra).
    assert (HLx : IZR (Z.max (lo a) 0) <= x * scale).
    { destruct (Z.max_spec (lo a) 0) as [[_ E] | [_ E]]; rewrite E; lra. }
    assert (HHx : x * scale <= IZR (Z.max (hi a) 0)).
    { apply Rle_trans with (IZR (hi a)); [lra | apply IZR_le; lia]. }
    assert (Hsq' : s * scale * (s * scale) = x * scale * scale)
      by (rewrite <- Hsq; ring).
    assert (Hss : 0 <= s * scale) by (apply Rmult_le_pos; lra).
    split.
    + destruct (Rle_lt_dec (IZR m) (s * scale)) as [Hc | Hc]; [exact Hc | ].
      exfalso.
      assert (s * scale * (s * scale) < IZR m * IZR m) by nra.
      nra.
    + destruct (Rle_lt_dec (s * scale) (IZR n + 1)) as [Hc | Hc]; [exact Hc | ].
      exfalso.
      assert ((IZR n + 1) * (IZR n + 1) < s * scale * (s * scale)) by nra.
      nra.
  - rewrite sqrt_neg_0 by lra.
    assert (Hlo : IZR (lo a) < 0).
    { assert (x * scale < 0); [ | lra].
      replace 0 with (0 * scale) by ring.
      apply Rmult_lt_compat_r; assumption. }
    apply lt_IZR in Hlo.
    replace (Z.max (lo a) 0) with 0%Z in HL by lia.
    simpl in HL. assert (IZR m = 0) by nra. lra.
Qed.

(** ** Alternating series *)

Lemma series_sound (k : nat) (y : R) (T : nat -> R) (yi : interval) :
  recurrent k y T -> contains yi y ->
  forall (n i : nat) (t acc : interval),
    contains t (T i) -> contains acc (sum_f_R0 T i) ->
    contains (fst (series k n i yi t acc)) (T (n + i)%nat) /\
    contains (snd (series k n i yi t acc)) (sum_f_R0 T (n + i)%nat).
Proof.
  intros Hrec Hy. induction n as [ | n IH]; intros i t acc Ht Hacc.
  - simpl. split; assumption.
  - simpl series. replace (S n + i)%nat with (n + S i)%nat by lia.
    assert (Ht' : contains
              (neg (divz (mul t yi)
                      (Z.of_nat ((2 * i + k + 1) * (2 * i + k + 2)))))
              (T (S i))).
    { rewrite Hrec. apply contains_neg. apply contains_divz; [lia | ].
      apply contains_mul; assumption. }
    apply IH; [exact Ht' | ].
    simpl sum_f_R0. apply contains_add; assumption.
Qed.

Lemma fact_step (n : nat) :
  INR (fact (S (S n))) = INR (fact n) * IZR (Z.of_nat ((n + 1) * (n + 2))).
Proof.
  rewrite <- INR_IZR_INZ. rewrite <- mult_INR. f_equal.
  change (fact (S (S n))) with (S (S n) * (S n * fact n))%nat. lia.
Qed.

Lemma cos_term_recurrent (r : R) : recurrent 0 (r * r) (cos_term r).
Proof.
  intro i. unfold cos_term.
  replace (2 * S i)%nat with (S (S (2 * i))) by lia.
  rewrite fact_step.
  replace ((2 * i + 0 + 1) * (2 * i + 0 + 2))%nat
    with ((2 * i + 1) * (2 * i + 2))%nat by lia.
  assert (Hf : INR (fact (2 * i)) <> 0) by apply INR_fact_neq_0.
  assert (Hd : IZR (Z.of_nat ((2 * i + 1) * (2 * i + 2))) <> 0).
  { apply not_0_IZR. lia. }
  simpl pow. field. split; assumption.
Qed.

Lemma sin_term_recurrent (r : R) : recurrent 1 (r * r) (sin_term r).
Proof.
  intro i. unfold sin_term.
  replace (2 * S i + 1)%nat with (S (S (2 * i + 1))) by lia.
  rewrite fact_step.
  replace ((2 * i + 1 + 1) * (2 * i + 1 + 2))%nat
    with ((2 * i + 1 + 1) * (2 * i + 1 + 2))%nat by lia.
  assert (Hf : INR (fact (2 * i + 1)) <> 0) by apply INR_fact_neq_0.
  assert (Hd : IZR (Z.of_nat ((2 * i + 1 + 1) * (2 * i + 1 + 2))) <> 0).
  { apply not_0_IZR. lia. }
  simpl pow. field. split; assumption.
Qed.

(** [between_sums] encloses whatever lies between the partial sums of
    indices [2 terms + 1] and [2 terms + 2]. *)
Lemma between_sums_sound (k : nat) (y v : R) (T : nat -> R)
  (yi t0 : interval) :
  recurrent k y T -> contains yi y -> contains t0 (T 0%nat) ->
  sum_f_R0 T (2 * terms + 1) <= v <= sum_f_R0 T (2 * (terms + 1)) ->
  contains (between_sums k yi t0) v.
Proof.
  intros Hrec Hy Ht Hv. unfold between_sums.
  pose proof (series_sound k y T yi Hrec Hy (2 * terms + 1) 0 t0 t0 Ht Ht)
    as [H1 H2].
  destruct (series k (2 * terms + 1) 0 yi t0 t0) as [t odd].
  change (contains t (T (2 * terms + 1)%nat)) in H1.
  change (contains odd (sum_f_R0 T (2 * terms + 1))) in H2.
  pose proof (series_sound k y T yi Hrec Hy 1 (2 * terms + 1) t odd H1 H2)
    as [_ H3].
  destruct (series k 1 (2 * terms + 1) yi t odd) as [t' even].
  change (contains even (sum_f_R0 T (2 * (terms + 1)))) in H3.
  destruct H2 as [H2 _]. destruct H3 as [_ H3]. destruct Hv as [Hv1 Hv2].
  pose proof scale_pos as Hs.
  apply Rmult_le_compat_r with (r := scale) in Hv1; [ | lra].
  apply Rmult_le_compat_r with (r := scale) in Hv2; [ | lra].
  unfold contains; simpl. lra.
Qed.

Lemma small_bounds (x : interval) (r : R) :
  small x = true -> contains x r -> - (1 / 8) <= r <= 1 / 8.
Proof.
  unfold small, contains. intros Hs [Hl Hh].
  apply andb_prop in Hs. destruct Hs as [H1 H2].
  apply Z.leb_le in H1, H2. apply IZR_le in H1, H2.
  rewrite mult_IZR in H1, H2. rewrite opp_IZR in H1. fold scale in H1, H2.
  pose proof scale_pos. split; nra.
Qed.

Lemma contains_cos_small (x : interval) (r : R) :
  small x = true -> contains x r -> contains (cos_small x) (Rtrigo_def.cos r).
Proof.
  intros Hs Hx. pose proof (small_bounds x r Hs Hx) as Hb.
  unfold cos_small.
  apply between_sums_sound with (y := r * r) (T := cos_term r).
  - apply cos_term_recurrent.
  - apply contains_mul; assumption.
  - unfold cos_term. simpl. replace (1 * (1 / 1)) with 1 by field.
    apply (contains_of_Z 1).
  - apply (pre_cos_bound r terms); lra.
Qed.

Lemma contains_double_angle (c : interval) (a : R) :
  contains c (Rtrigo_def.cos a) ->
  contains (double_angle c) (Rtrigo_def.cos (2 * a)).
Proof.
  intro Hc. rewrite cos_2a_cos. unfold double_angle.
  apply contains_sub; [ | apply (contains_of_Z 1)].
  rewrite Rmult_assoc. apply contains_mul; [apply (contains_of_Z 2) | ].
  apply contains_mul; assumption.
Qed.

Lemma contains_unit_range_cos (r : R) : contains unit_range (Rtrigo_def.cos r).
Proof.
  unfold contains, unit_range; cbn [lo hi]. rewrite opp_IZR. fold scale.
  pose proof (COS_bound r). pose proof scale_pos. nra.
Qed.

Lemma contains_unit_range_sin (r : R) : contains unit_range (Rtrigo_def.sin r).
Proof.
  unfold contains, unit_range; cbn [lo hi]. rewrite opp_IZR. fold scale.
  pose proof (SIN_bound r). pose proof scale_pos. nra.
Qed.

Lemma contains_cos_halving (fuel : nat) :
  forall (x : interval) (r : R),
    contains x r -> contains (cos_halving fuel x) (Rtrigo_def.cos r).
Proof.
  induction fuel as [ | fuel IH]; intros x r Hx; simpl.
  - destruct (small x) eqn:Hs.
    + apply contains_cos_small; assumption.
    + apply contains_unit_range_cos.
  - destruct (small x) eqn:Hs.
    + apply contains_cos_small; assumption.
    + replace r with (2 * (r / 2)) by field.
      apply contains_double_angle. apply IH. apply contains_halve. exact Hx.
Qed.

Lemma contains_cos (x : interval) (r : R) :
  contains x r -> contains (cos x) (Rtrigo_def.cos r).
Proof. apply contains_cos_halving. Qed.

Lemma contains_sin (x : interval) (r : R) :
  contains x r -> contains (sin x) (Rtrigo_def.sin r).
Proof.
  intro Hx. unfold sin.
  destruct ((0 <=? lo x)%Z && (hi x <=? 4 * one)%Z) eqn:Hg.
  - apply andb_prop in Hg. destruct Hg as [H1 H2].
    apply Z.leb_le in H1, H2. apply IZR_le in H1, H2.
    rewrite mult_IZR in H2. fold scale in H2.
    assert (Hr : 0 <= r <= 4).
    { destruct Hx as [Hl Hh]. pose proof scale_pos. split; nra. }
    apply between_sums_sound with (y := r * r) (T := sin_term r).
    + apply sin_term_recurrent.
    + apply contains_mul; assumption.
    + unfold sin_term. simpl. replace (1 * (r * 1 / 1)) with r by field.
      exact Hx.
    + apply (pre_sin_bound r terms); lra.
  - apply contains_unit_range_sin.
Qed.

(** ** The field, operation by operation *)

(** Enclosure of a compound expression, operation by operation. *)
Ltac enclose :=
  lazymatch goal with
  | |- contains (of_Z _) _ => apply contains_of_Z
  | |- contains (of_Q _) _ => apply contains_of_Q
  | |- contains (add _ _) _ => apply contains_add; enclose
  | |- contains (sub _ _) _ => apply contains_sub; enclose
  | |- contains (mul _ _) _ => apply contains_mul; enclose
  | |- contains (neg _) _ => apply contains_neg; enclose
  | |- contains (abs _) _ => apply contains_abs; enclose
  | |- contains (max _ _) _ => apply contains_max; enclose
  | |- contains (min _ _) _ => apply contains_min; enclose
  | |- contains (sqrt _) _ => apply contains_sqrt; enclose
  | |- contains (cos _) _ => apply contains_cos; enclose
  | |- _ => assumption
  end.

Lemma contains_rotate x z c s (rx rz angle : R) :
  contains x rx -> contains z rz ->
  contains c (Rtrigo_def.cos angle) -> contains s (Rtrigo_def.sin angle) ->
  contains (fst (rotate x z c s))
    (fst (Shader.mul_vm (rx, rz) (Shader.rot angle))) /\
  contains (snd (rotate x z c s))
    (snd (Shader.mul_vm (rx, rz) (Shader.rot angle))).
Proof.
  intros Hx Hz Hc Hs.
  unfold rotate, Shader.mul_vm, Shader.rot, Shader.dot2.
  cbn [fst snd Shader.col0 Shader.col1].
  split; enclose.
Qed.

Lemma contains_waveStep c s i f a t d (ri rf ra rt : R) (rd : Shader.vec3) :
  contains c (Rtrigo_def.cos 0.4) -> contains s (Rtrigo_def.sin 0.4) ->
  contains i ri -> contains f rf -> contains a ra -> contains t rt ->
  contains3 d rd ->
  contains3 (waveStep c s i f a t d) (Shader.waveStep ri rf ra rt rd).
Proof.
  intros Hc Hs Hi Hf Ha Ht Hd.
  destruct d as [[x y] z]. destruct rd as [[rx ry] rz].
  destruct Hd as (Hx & Hy & Hz).
  unfold waveStep, Shader.waveStep.
  destruct (contains_rotate x z c s rx rz 0.4 Hx Hz Hc Hs) as [Hx' Hz'].
  revert Hx' Hz'.
  generalize (Shader.mul_vm (rx, rz) (Shader.rot 0.4)).
  generalize (rotate x z c s).
  intros [x' z'] [rx' rz']; cbn [fst snd]. intros Hx' Hz'.
  unfold Shader.add3, Shader.scale3, contains3.
  refine (conj _ (conj _ _)); enclose.
Qed.

Lemma contains_waveLoop c s t (rt : R) :
  contains c (Rtrigo_def.cos 0.4) -> contains s (Rtrigo_def.sin 0.4) ->
  contains t rt ->
  forall (n : nat) i f a d (ri rf ra : R) (rd : Shader.vec3),
    contains i ri -> contains f rf -> contains a ra -> contains3 d rd ->
    contains3 (waveLoop c s n i f a t d) (Shader.waveLoop n ri rf ra rt rd).
Proof.
  intros Hc Hs Ht.
  induction n as [ | n IH]; intros i f a d ri rf ra rd Hi Hf Ha Hd.
  - exact Hd.
  - cbn [waveLoop Shader.waveLoop]. apply IH.
    + enclose.
    + enclose.
    + unfold Shader.HALF. enclose.
    + apply contains_waveStep; assumption.
Qed.

Lemma contains_blendMin1 a b (x y : R) :
  contains a x -> contains b y ->
  contains (blendMin1 a b) (Shader.blendMin x y 1).
Proof.
  intros Ha Hb. unfold blendMin1, Shader.blendMin.
  replace (1 * 4) with 4 by ring.
  apply contains_sub; [enclose | ].
  apply (contains_divz _ _ 4); [reflexivity | ]. enclose.
Qed.

Lemma contains_blendMax1 a b (x y : R) :
  contains a x -> contains b y ->
  contains (blendMax1 a b) (Shader.blendMax x y 1).
Proof.
  intros Ha Hb. unfold blendMax1, Shader.blendMax.
  apply contains_neg. apply contains_blendMin1; enclose.
Qed.

Lemma contains_length2 a b (x y : R) :
  contains a x -> contains b y ->
  contains (length2 a b) (Shader.length2 (x, y)).
Proof.
  intros Ha Hb. unfold length2, Shader.length2; cbn [fst snd]. enclose.
Qed.

Lemma contains_fieldDistance c s t w h pos (u : Shader.Uniforms)
  (rpos : Shader.vec3) :
  contains c (Rtrigo_def.cos 0.4) -> contains s (Rtrigo_def.sin 0.4) ->
  contains t (Shader.uTime u) -> contains w (Shader.uPillarWidth u) ->
  contains h (Shader.uPillarHeight u) -> contains3 pos rpos ->
  contains (fieldDistance c s t w h pos) (Shader.fieldDistance u rpos).
Proof.
  intros Hc Hs Ht Hw Hh Hpos.
  destruct pos as [[px py] pz]. destruct rpos as [[rx ry] rz].
  destruct Hpos as (Hx & Hy & Hz).
  unfold fieldDistance, Shader.fieldDistance, Shader.applyWaveDeformation.
  unfold Shader.add3 at 1.
  assert (Hd : contains3
                 (add px (of_Z 0), add (mul py h) t, add pz (of_Z 0))
                 (rx + 0, ry * Shader.uPillarHeight u + Shader.uTime u,
                  rz + 0)).
  { unfold contains3. refine (conj _ (conj _ _)); enclose. }
  pose proof (contains_waveLoop c s t (Shader.uTime u) Hc Hs Ht 4
                (of_Z 0) (of_Z 1) (of_Z 1) _ 0 1 1 _
                (contains_of_Z 0) (contains_of_Z 1) (contains_of_Z 1) Hd)
    as Hwave.
  revert Hwave.
  generalize (Shader.waveLoop 4 0 1 1 (Shader.uTime u)
                (rx + 0, ry * Shader.uPillarHeight u + Shader.uTime u, rz + 0)).
  generalize (waveLoop c s 4 (of_Z 0) (of_Z 1) (of_Z 1) t
                (add px (of_Z 0), add (mul py h) t, add pz (of_Z 0))).
  intros [[dx dy] dz] [[rdx rdy] rdz] (Hdx & _ & Hdz).
  apply contains_add; [ | enclose].
  apply contains_mul; [ | enclose].
  apply contains_abs. apply contains_blendMax1.
  - apply contains_sub; [ | assumption]. apply contains_length2; assumption.
  - apply contains_sub; [ | enclose]. apply contains_length2; enclose.
Qed.

End EnclosureFacts.

(* ================================================================== *)
(** * The march *)
(* ================================================================== *)

Section ShaderFacts.

Import Shader.
Open Scope R_scope.

Lemma Rltb_true (x y : R) : x < y -> Rltb x y = true.
Proof.
  intro H. unfold Rltb.
  destruct (Rlt_dec x y); [reflexivity | contradiction].
Qed.

Lemma Rltb_false (x y : R) : y <= x -> Rltb x y = false.
Proof. intro H. unfold Rltb. destruct (Rlt_dec x y); [lra | reflexivity]. Qed.

(** The field value is an absolute value scaled and raised by [0.01]. *)
Lemma fieldDistance_floor (u : Uniforms) (pos : vec3) :
  0.01 <= fieldDistance u pos.
Proof.
  destruct pos as [[px py] pz]. unfold fieldDistance.
  destruct (applyWaveDeformation _ _) as [[dx dy] dz].
  pose proof (Rabs_pos
    (blendMax (length2 (px, pz) - uPillarWidth u)
       (length2 (Rtrigo_def.cos dx, Rtrigo_def.cos dz) - 0.2) 1)) as H.
  lra.
Qed.

Lemma never_hit (u : Uniforms) (pos : vec3) :
  Rltb (fieldDistance u pos) EPSILON = false.
Proof.
  apply Rltb_false. pose proof (fieldDistance_floor u pos). unfold EPSILON. lra.
Qed.

(** One pass of [march], with the surface test known to fail. *)
Lemma march_step (n i : nat) (u : Uniforms) (direction : vec3) (depth : R)
  (color : vec3) :
  march (S n) i u direction depth color =
  let pos := samplePos u direction depth in
  let fd := fieldDistance u pos in
  if Rltb maxDepth depth
  then mkMarched (Break i false true) depth (add3 color (glow u pos fd))
  else march n (S i) u direction (depth + fd) (add3 color (glow u pos fd)).
Proof.
  cbn [march]. rewrite never_hit. cbn [orb].
  destruct (Rltb maxDepth depth); reflexivity.
Qed.

Lemma rot_0 : rot 0 = mkMat2 (1, - 0) (0, 1).
Proof. unfold rot. rewrite sin_0, cos_0. reflexivity. Qed.

Lemma samplePos_axis (u : Uniforms) (depth : R) :
  horizontalAngle u = 0 ->
  samplePos u (0, 0, 1) depth = (0, 0, -10 + depth).
Proof.
  intro Ha. unfold samplePos, rotX. rewrite Ha, rot_0.
  unfold origin, add3, scale3, mul_vm, dot2; cbn [fst snd col0 col1].
  f_equal; [f_equal | ]; ring.
Qed.

Lemma normalize3_axis : normalize3 (0, 0, 1) = (0, 0, 1).
Proof.
  unfold normalize3, length3.
  replace (0 * 0 + 0 * 0 + 1 * 1) with 1 by ring.
  rewrite sqrt_1. f_equal; [f_equal | ]; field.
Qed.

Lemma horizontalAngle_idle (u : Uniforms) :
  uInteractive u = false -> horizontalAngle u = uTime u * 0.3.
Proof. intro H. unfold horizontalAngle. rewrite H. reflexivity. Qed.

End ShaderFacts.

Section MarchFacts.

Import Enclosure.
Open Scope R_scope.

Lemma marchLoop_sound c s t w h (u : Shader.Uniforms) :
  contains c (Rtrigo_def.cos 0.4) -> contains s (Rtrigo_def.sin 0.4) ->
  contains t (Shader.uTime u) -> contains w (Shader.uPillarWidth u) ->
  contains h (Shader.uPillarHeight u) ->
  Shader.horizontalAngle u = 0 ->
  forall (n i : nat) (d : interval) (depth : R) (color : Shader.vec3) (k : nat),
    contains d depth ->
    marchLoop c s n i t w h d = Some k ->
    Shader.exit (Shader.march n i u (0, 0, 1) depth color)
    = Shader.Break k false true.
Proof.
  intros Hc Hs Ht Hw Hh Hangle.
  induction n as [ | n IH]; intros i d depth color k Hd Hrun.
  - discriminate Hrun.
  - rewrite march_step. cbv zeta. cbn [marchLoop] in Hrun.
    pose proof scale_pos as Hsc.
    destruct (Z.ltb_spec (50 * one) (lo d)) as [Hdeep | Hdeep].
    + injection Hrun as <-.
      apply IZR_lt in Hdeep. rewrite mult_IZR in Hdeep. fold scale in Hdeep.
      rewrite Rltb_true; [reflexivity | ].
      unfold Shader.maxDepth. destruct Hd as [Hd _]. nra.
    + destruct (Z.leb_spec (hi d) (50 * one)) as [Hshallow | Hshallow];
        [ | discriminate Hrun].
      apply IZR_le in Hshallow. rewrite mult_IZR in Hshallow.
      fold scale in Hshallow.
      rewrite Rltb_false
        by (unfold Shader.maxDepth; destruct Hd as [_ Hd]; nra).
      apply IH with (d := add d (fieldDistance c s t w h
                                   (of_Z 0, of_Z 0, add (of_Z (-10)) d)));
        [ | exact Hrun].
      apply contains_add; [exact Hd | ].
      rewrite samplePos_axis by exact Hangle.
      apply contains_fieldDistance; try assumption.
      refine (conj _ (conj _ _)).
      * apply (contains_of_Z 0).
      * apply (contains_of_Z 0).
      * apply contains_add; [apply (contains_of_Z (-10)) | exact Hd].
Qed.

Lemma march_sound (n k : nat) t w h d (u : Shader.Uniforms) (depth : R)
  (color : Shader.vec3) :
  contains t (Shader.uTime u) -> contains w (Shader.uPillarWidth u) ->
  contains h (Shader.uPillarHeight u) -> contains d depth ->
  Shader.horizontalAngle u = 0 ->
  march n t w h d = Some k ->
  Shader.exit (Shader.march n 0 u (0, 0, 1) depth color)
  = Shader.Break k false true.
Proof.
  intros Ht Hw Hh Hd Hangle Hrun. unfold march in Hrun.
  apply marchLoop_sound
    with (c := cos (of_Q (0.4)%Q)) (s := sin (of_Q (0.4)%Q))
         (t := t) (w := w) (h := h) (d := d); try assumption.
  - apply contains_cos. apply contains_of_Q.
  - apply contains_sin. apply contains_of_Q.
Qed.

(** The enclosures decide every comparison of the march for
    [pillarWidth = 3], [pillarHeight = 0.4] and [time = 0] along the view
    axis, and find the break at pass 78. *)
Lemma march_run :
  march 100 (of_Z 0) (of_Z 3) (of_Q (0.4)%Q) (of_Q (0.1)%Q) = Some 78%nat.
Proof. vm_compute. reflexivity. Qed.

(** C5. With [pillarWidth = 3.0], [pillarHeight = 0.4], [time = 0] and a
    non-interactive instance, the march of the pixel at [uv = (0, 0)]
    leaves its loop by the [break], at pass 78 and because the depth has
    exceeded [maxDepth]: 79 passes are entered, fewer than the cap of
    100. *)
Theorem march_breaks_before_cap (u : Shader.Uniforms) :
  Shader.uPillarWidth u = 3 -> Shader.uPillarHeight u = 0.4 ->
  Shader.uTime u = 0 -> Shader.uInteractive u = false ->
  Shader.exit (Shader.raymarch u (0, 0)) = Shader.Break 78 false true /\
  lt (Shader.passes (Shader.raymarch u (0, 0))) 100.
Proof.
  intros Hw Hh Ht Hi.
  assert (Hexit : Shader.exit (Shader.raymarch u (0, 0))
                  = Shader.Break 78 false true).
  { unfold Shader.raymarch; cbn [fst snd]. rewrite normalize3_axis.
    apply march_sound with (t := of_Z 0) (w := of_Z 3)
                           (h := of_Q (0.4)%Q) (d := of_Q (0.1)%Q).
    - rewrite Ht. apply (contains_of_Z 0).
    - rewrite Hw. apply (contains_of_Z 3).
    - rewrite Hh. apply contains_of_Q.
    - unfold Shader.startDepth. apply contains_of_Q.
    - rewrite horizontalAngle_idle by exact Hi. rewrite Ht. ring.
    - exact march_run. }
  split; [exact Hexit | ].
  unfold Shader.passes. rewrite Hexit. repeat constructor.
Qed.

Lemma march_breaks_before_cap_witness :
  Shader.exit (Shader.raymarch Shader.pageUniforms (0, 0))
  = Shader.Break 78 false true /\
  lt (Shader.passes (Shader.raymarch Shader.pageUniforms (0, 0))) 100.
Proof.
  apply (march_breaks_before_cap Shader.pageUniforms); reflexivity.
Defined.

End MarchFacts.

Section ShaderClaims.

Import Shader.
Open Scope R_scope.

(** C10. The field value is never below [0.01], so the surface test of
    the [break] never holds: whenever the march breaks, it is because the
    depth exceeds [maxDepth] and only for that; otherwise the passes run
    out.  Every pass that goes on advances the depth by at least [0.01]:
    a march that breaks at pass [k] or runs out after [n] passes has
    advanced by at least [0.01] per completed pass. *)
Theorem field_floor_excludes_surface_exit (u : Uniforms) (direction : vec3) :
  (forall pos, 0.01 <= fieldDistance u pos /\
               Rltb (fieldDistance u pos) EPSILON = false) /\
  forall (n i : nat) (depth : R) (color : vec3),
    match exit (march n i u direction depth color) with
    | Break k hit tooDeep =>
        hit = false /\ tooDeep = true /\
        maxDepth < finalDepth (march n i u direction depth color) /\
        (i <= k)%nat /\
        depth + 0.01 * INR (k - i)
        <= finalDepth (march n i u direction depth color)
    | Exhausted =>
        depth + 0.01 * INR n
        <= finalDepth (march n i u direction depth color)
    end.
Proof.
  split.
  - intro pos. split; [apply fieldDistance_floor | apply never_hit].
  - induction n as [ | n IH]; intros i depth color.
    + cbn [march exit finalDepth]. cbn [INR]. lra.
    + rewrite march_step. cbv zeta.
      pose proof (fieldDistance_floor u (samplePos u direction depth)) as Hfd.
      destruct (Rlt_dec maxDepth depth) as [Hdeep | Hshallow];
        [rewrite (Rltb_true _ _ Hdeep)
        | rewrite (Rltb_false maxDepth depth) by lra].
      * cbn [exit finalDepth].
        replace (i - i)%nat with 0%nat by lia. cbn [INR].
        repeat split; try reflexivity; try lia; lra.
      * specialize (IH (S i)
                      (depth + fieldDistance u (samplePos u direction depth))
                      (add3 color
                         (glow u (samplePos u direction depth)
                            (fieldDistance u (samplePos u direction depth))))).
        destruct (exit (march n (S i) u direction
                          (depth
                           + fieldDistance u (samplePos u direction depth))
                          (add3 color
                             (glow u (samplePos u direction depth)
                                (fieldDistance u
                                   (samplePos u direction depth))))))
          as [k hit tooDeep | ].
        -- destruct IH as (Hh & Ht & Hm & Hk & Hd).
           repeat split; try assumption; try lia.
           replace (k - i)%nat with (S (k - S i)) by lia.
           rewrite S_INR. lra.
        -- rewrite S_INR. lra.
Qed.





End ShaderClaims.

(* ================================================================== *)
(** * Further properties of the shader *)
(* ================================================================== *)

Section ShaderExtras.

Import Shader.
Open Scope R_scope.

(** The quadratic blend stays within [k] below the minimum. *)
Lemma blend_term_bounds (a b k : R) :
  0 < k ->
  0 <= Rmax (k * 4 - Rabs (a - b)) 0 * Rmax (k * 4 - Rabs (a - b)) 0 * 0.25
       / (k * 4) <= k.
Proof.
  intro Hk. pose proof (Rabs_pos (a - b)) as Habs.
  assert (Hh : 0 <= Rmax (k * 4 - Rabs (a - b)) 0 <= k * 4).
  { split; [apply Rmax_r | ]. apply Rmax_lub; lra. }
  revert Hh. generalize (Rmax (k * 4 - Rabs (a - b)) 0). intros h [H0 H4].
  assert (Hq : h * h * 0.25 / (k * 4) = h * h / (16 * k)).
  { replace 0.25 with (1 / 4) by lra. field. lra. }
  rewrite Hq. split.
  - apply Rmult_le_pos; [nra | ]. apply Rlt_le, Rinv_0_lt_compat. lra.
  - apply Rmult_le_reg_r with (16 * k); [lra | ].
    replace (h * h / (16 * k) * (16 * k)) with (h * h) by (field; lra). nra.
Qed.

(** X14. For a positive radius [k] the smooth minimum lies at most [k]
    below the true minimum and never above it, the smooth maximum at
    most [k] above the true maximum and never below it; the minimum is
    symmetric, equal arguments give [a - k], and arguments at least
    [4 k] apart give the plain minimum and maximum. *)
Theorem blend_within_radius (a b k : R) :
  0 < k ->
  Rmin a b - k <= blendMin a b k <= Rmin a b /\
  Rmax a b <= blendMax a b k <= Rmax a b + k /\
  blendMin a b k = blendMin b a k /\
  blendMin a a k = a - k /\
  (k * 4 <= Rabs (a - b) ->
   blendMin a b k = Rmin a b /\ blendMax a b k = Rmax a b).
Proof.
  intro Hk.
  assert (Hopp : forall x y, Rmin (- x) (- y) = - Rmax x y).
  { intros x y. unfold Rmin, Rmax.
    destruct (Rle_dec (- x) (- y)); destruct (Rle_dec x y); lra. }
  assert (Hfar : forall x y, k * 4 <= Rabs (x - y) ->
                             Rmax (k * 4 - Rabs (x - y)) 0 = 0).
  { intros x y H. apply Rmax_right. lra. }
  split; [ | split; [ | split; [ | split]]].
  - unfold blendMin. pose proof (blend_term_bounds a b k Hk). lra.
  - unfold blendMax, blendMin. rewrite Hopp.
    pose proof (blend_term_bounds (- a) (- b) k Hk). lra.
  - unfold blendMin. rewrite (Rmin_comm a b).
    replace (Rabs (a - b)) with (Rabs (b - a)); [reflexivity | ].
    rewrite <- Rabs_Ropp. f_equal. ring.
  - unfold blendMin. replace (a - a) with 0 by ring. rewrite Rabs_R0.
    rewrite Rmax_left by lra. rewrite Rmin_left by lra.
    replace 0.25 with (1 / 4) by lra. field. lra.
  - intro H. split.
    + unfold blendMin. rewrite (Hfar a b H).
      replace 0.25 with (1 / 4) by lra. field. lra.
    + unfold blendMax, blendMin. rewrite Hopp.
      assert (H' : k * 4 <= Rabs (- a - - b)).
      { replace (- a - - b) with (- (a - b)) by ring. rewrite Rabs_Ropp.
        exact H. }
      rewrite (Hfar (- a) (- b) H').
      replace 0.25 with (1 / 4) by lra. field. lra.
Qed.

Lemma blend_within_radius_witness :
  blendMin 1 1 0.5 = 1 - 0.5 /\
  Rmax 0 3 <= blendMax 0 3 0.5 <= Rmax 0 3 + 0.5 /\
  blendMin 0 3 0.5 = Rmin 0 3.
Proof.
  destruct (blend_within_radius 1 1 0.5 ltac:(lra)) as (_ & _ & _ & Hsame & _).
  destruct (blend_within_radius 0 3 0.5 ltac:(lra)) as (_ & Hmax & _ & _ & Hfar).
  split; [exact Hsame | ]. split; [exact Hmax | ].
  apply Hfar. unfold Rabs. destruct (Rcase_abs (0 - 3)); lra.
Defined.

(** ** Rotations *)

Lemma mul_vm_rot (x y a : R) :
  mul_vm (x, y) (rot a)
  = (x * Rtrigo_def.cos a + y * - Rtrigo_def.sin a,
     x * Rtrigo_def.sin a + y * Rtrigo_def.cos a).
Proof. reflexivity. Qed.

(** X15. [v * rot(a)] is a rotation of the plane: it keeps the length
    of [v], turning by [a] and then by [b] is turning by [a + b], and
    turning by [- a] undoes it. *)
Theorem rot_is_rotation (v : vec2) (a b : R) :
  length2 (mul_vm v (rot a)) = length2 v /\
  mul_vm (mul_vm v (rot a)) (rot b) = mul_vm v (rot (a + b)) /\
  mul_vm (mul_vm v (rot a)) (rot (- a)) = v.
Proof.
  destruct v as [x y].
  assert (Hcomp : forall c d,
             mul_vm (mul_vm (x, y) (rot c)) (rot d)
             = mul_vm (x, y) (rot (c + d))).
  { intros c d. rewrite !mul_vm_rot. rewrite cos_plus, sin_plus.
    f_equal; ring. }
  split; [ | split].
  - rewrite mul_vm_rot. unfold length2; cbn [fst snd]. f_equal.
    pose proof (sin2_cos2 a) as H. unfold Rsqr in H.
    replace ((x * Rtrigo_def.cos a + y * - Rtrigo_def.sin a)
             * (x * Rtrigo_def.cos a + y * - Rtrigo_def.sin a)
             + (x * Rtrigo_def.sin a + y * Rtrigo_def.cos a)
               * (x * Rtrigo_def.sin a + y * Rtrigo_def.cos a))
      with ((x * x + y * y)
            * (Rtrigo_def.sin a * Rtrigo_def.sin a
               + Rtrigo_def.cos a * Rtrigo_def.cos a)) by ring.
    rewrite H. ring.
  - apply Hcomp.
  - rewrite Hcomp. replace (a + - a) with 0 by ring.
    rewrite mul_vm_rot, sin_0, cos_0. f_equal; ring.
Qed.

(** ** The dither *)

Lemma fract_unit (x : R) : 0 <= fract x < 1.
Proof.
  unfold fract. destruct (base_fp x) as [H0 H1].
  split; [apply Rge_le; exact H0 | exact H1].
Qed.

(** X16. The dither value of every fragment lies in [0, 1). *)
Theorem noise_range (coord : vec2) : 0 <= noise coord < 1.
Proof. unfold noise. apply fract_unit. Qed.

(** ** The centre pixel *)

(** X17. Whatever the resolution (of non-zero height) and the pillar
    rotation, the centre of the surface has screen coordinate
    [(0, 0)]. *)
Theorem screenCoord_centre (u : Uniforms) :
  snd (uResolution u) <> 0 -> screenCoord u (0.5, 0.5) = (0, 0).
Proof.
  intro Hy. unfold screenCoord; cbn [fst snd].
  replace (0.5 * fst (uResolution u) * 2 - fst (uResolution u)) with 0 by lra.
  replace (0.5 * snd (uResolution u) * 2 - snd (uResolution u)) with 0 by lra.
  rewrite mul_vm_rot. f_equal; field; exact Hy.
Qed.

Lemma screenCoord_centre_witness :
  screenCoord pageUniforms (0.5, 0.5) = (0, 0).
Proof.
  apply (screenCoord_centre pageUniforms).
  unfold pageUniforms; cbn [uResolution snd]. lra.
Defined.

(** ** Tone mapping *)

Lemma tanh_bounds (x : R) : -1 < tanh x < 1.
Proof.
  unfold tanh, sinh, cosh.
  pose proof (exp_pos x) as H1. pose proof (exp_pos (- x)) as H2.
  revert H1 H2. generalize (exp x) (exp (- x)). intros p q Hp Hq.
  replace ((p - q) / 2 / ((p + q) / 2)) with ((p - q) / (p + q))
    by (field; lra).
  split.
  - apply Rmult_lt_reg_r with (p + q); [lra | ].
    replace ((p - q) / (p + q) * (p + q)) with (p - q) by (field; lra). lra.
  - apply Rmult_lt_reg_r with (p + q); [lra | ].
    replace ((p - q) / (p + q) * (p + q)) with (p - q) by (field; lra). lra.
Qed.

Lemma tanh_nonneg (x : R) : 0 <= x -> 0 <= tanh x.
Proof.
  intro Hx. unfold tanh, sinh, cosh.
  assert (Hle : exp (- x) <= exp x).
  { destruct Hx as [Hx | <-].
    - left. apply exp_increasing. lra.
    - rewrite Ropp_0. lra. }
  pose proof (exp_pos x) as H1. pose proof (exp_pos (- x)) as H2.
  revert Hle H1 H2. generalize (exp x) (exp (- x)). intros p q Hle Hp Hq.
  replace ((p - q) / 2 / ((p + q) / 2)) with ((p - q) / (p + q))
    by (field; lra).
  apply Rmult_le_pos; [lra | ]. apply Rlt_le, Rinv_0_lt_compat. lra.
Qed.

(** ** The gradient *)

Lemma clamp_unit (x : R) : 0 <= clamp x 0 1 <= 1.
Proof.
  unfold clamp. split.
  - apply Rmin_glb; [apply Rmax_r | lra].
  - apply Rmin_r.
Qed.

Lemma smoothstep_range (edge0 edge1 x : R) :
  0 <= smoothstep edge0 edge1 x <= 1.
Proof.
  unfold smoothstep.
  pose proof (clamp_unit ((x - edge0) / (edge1 - edge0))) as H.
  revert H. generalize (clamp ((x - edge0) / (edge1 - edge0)) 0 1).
  intros t [H0 H1]. split.
  - apply Rmult_le_pos; [nra | lra].
  - assert (0 <= (1 - t) * (1 - t) * (1 + 2 * t)).
    { apply Rmult_le_pos; [nra | lra]. }
    lra.
Qed.

(** X18. Above the band ([y >= 15]) the gradient is the bottom colour,
    below it ([y <= -15]) the top colour, and on the axis their mean; a
    sample of positive field value [fd] adds that colour divided by
    [fd]. *)
Theorem glow_gradient (u : Uniforms) (px py pz fd : R) :
  0 < fd ->
  (15 <= py ->
   glow u (px, py, pz) fd = scale3 (uBottomColor u) (1 / fd)) /\
  (py <= -15 ->
   glow u (px, py, pz) fd = scale3 (uTopColor u) (1 / fd)) /\
  (py = 0 ->
   glow u (px, py, pz) fd
   = scale3 (add3 (uBottomColor u) (uTopColor u)) (0.5 / fd)).
Proof.
  intro Hfd.
  assert (Hpow : Rpower (1 / fd) 1 = 1 / fd).
  { apply Rpower_1. apply Rdiv_lt_0_compat; lra. }
  unfold glow. rewrite Hpow.
  destruct (uBottomColor u) as [[b1 b2] b3].
  destruct (uTopColor u) as [[t1 t2] t3].
  assert (Hratio : (py - 15) / (-15 - 15) = (15 - py) / 30) by (field; lra).
  unfold smoothstep. rewrite Hratio.
  split; [ | split]; intro Hy.
  - assert (Hc : clamp ((15 - py) / 30) 0 1 = 0).
    { unfold clamp. rewrite Rmax_right; [apply Rmin_left; lra | ].
      apply Rmult_le_reg_r with 30; [lra | ].
      replace ((15 - py) / 30 * 30) with (15 - py) by field. lra. }
    rewrite Hc. unfold mix3, add3, scale3. f_equal; [f_equal | ]; ring.
  - assert (Hc : clamp ((15 - py) / 30) 0 1 = 1).
    { unfold clamp.
      assert (1 <= (15 - py) / 30).
      { apply Rmult_le_reg_r with 30; [lra | ].
        replace ((15 - py) / 30 * 30) with (15 - py) by field. lra. }
      rewrite Rmax_left by lra. apply Rmin_right. assumption. }
    rewrite Hc. unfold mix3, add3, scale3. f_equal; [f_equal | ]; ring.
  - assert (Hc : clamp ((15 - py) / 30) 0 1 = 1 / 2).
    { subst py. replace ((15 - 0) / 30) with (1 / 2) by field.
      unfold clamp. rewrite Rmax_left by lra. apply Rmin_left. lra. }
    rewrite Hc. unfold mix3, add3, scale3.
    replace 0.5 with (1 / 2) by lra.
    f_equal; [f_equal | ]; field; lra.
Qed.

Lemma glow_gradient_witness :
  glow pageUniforms (0, 20, 0) 2 = scale3 (uBottomColor pageUniforms) (1 / 2) /\
  glow pageUniforms (0, -20, 0) 2 = scale3 (uTopColor pageUniforms) (1 / 2).
Proof.
  split.
  - apply (glow_gradient pageUniforms 0 20 0 2 ltac:(lra)). lra.
  - apply (glow_gradient pageUniforms 0 (-20) 0 2 ltac:(lra)). lra.
Defined.

(** ** The accumulated colour and the pixel *)

Lemma glow_nonneg (u : Uniforms) (pos : vec3) (fd : R) :
  nonneg3 (uTopColor u) -> nonneg3 (uBottomColor u) ->
  nonneg3 (glow u pos fd).
Proof.
  destruct pos as [[px py] pz]. unfold glow.
  destruct (uTopColor u) as [[t1 t2] t3].
  destruct (uBottomColor u) as [[b1 b2] b3].
  intros (Ht1 & Ht2 & Ht3) (Hb1 & Hb2 & Hb3).
  pose proof (smoothstep_range 15 (-15) py) as Hs.
  revert Hs. generalize (smoothstep 15 (-15) py). intros t [H0 H1].
  assert (Hp : 0 <= Rpower (1 / fd) 1).
  { unfold Rpower. left. apply exp_pos. }
  revert Hp. generalize (Rpower (1 / fd) 1). intros p Hp.
  unfold mix3, add3, scale3, nonneg3.
  repeat split; apply Rmult_le_pos; try assumption;
    apply Rplus_le_le_0_compat; apply Rmult_le_pos; lra.
Qed.

Lemma march_color_nonneg (u : Uniforms) (direction : vec3) :
  nonneg3 (uTopColor u) -> nonneg3 (uBottomColor u) ->
  forall (n i : nat) (depth : R) (color : vec3),
    nonneg3 color ->
    nonneg3 (finalColor (march n i u direction depth color)).
Proof.
  intros Ht Hb. induction n as [ | n IH]; intros i depth color Hc.
  - exact Hc.
  - cbn [march].
    assert (Hc' : nonneg3
                    (add3 color
                       (glow u (samplePos u direction depth)
                          (fieldDistance u (samplePos u direction depth))))).
    { pose proof (glow_nonneg u (samplePos u direction depth)
                    (fieldDistance u (samplePos u direction depth)) Ht Hb)
        as Hg.
      revert Hg. generalize (glow u (samplePos u direction depth)
                               (fieldDistance u (samplePos u direction depth))).
      intros [[g1 g2] g3]. destruct color as [[c1 c2] c3].
      unfold nonneg3 in *. cbn [add3]. intros (H1 & H2 & H3).
      destruct Hc as (Hc1 & Hc2 & Hc3). repeat split; lra. }
    destruct (Rltb _ EPSILON || Rltb maxDepth depth).
    + exact Hc'.
    + apply IH. exact Hc'.
Qed.

Lemma raymarch_color_nonneg (u : Uniforms) (uv : vec2) :
  nonneg3 (uTopColor u) -> nonneg3 (uBottomColor u) ->
  nonneg3 (finalColor (raymarch u uv)).
Proof.
  intros Ht Hb. unfold raymarch. apply march_color_nonneg; try assumption.
  unfold nonneg3. lra.
Qed.

(** One channel of the pixel, from its accumulated colour [c] and the
    dither [rnd]. *)
Lemma channel_range (u : Uniforms) (c rnd : R) :
  0 <= uGlowAmount u -> 0 < uPillarWidth u ->
  0 <= uNoiseIntensity u -> 0 <= uIntensity u ->
  0 <= c -> 0 <= rnd < 1 ->
  - (uNoiseIntensity u / 15 * uIntensity u)
  <= (tanh (c * uGlowAmount u / (uPillarWidth u / 3))
      - rnd / 15 * uNoiseIntensity u) * uIntensity u
  <= uIntensity u.
Proof.
  intros Hg Hw Hn Hi Hc [Hr0 Hr1].
  assert (Harg : 0 <= c * uGlowAmount u / (uPillarWidth u / 3)).
  { replace (c * uGlowAmount u / (uPillarWidth u / 3))
      with (c * uGlowAmount u * (3 / uPillarWidth u)) by (field; lra).
    apply Rmult_le_pos; [apply Rmult_le_pos; assumption | ].
    apply Rlt_le, Rdiv_lt_0_compat; lra. }
  pose proof (tanh_nonneg _ Harg) as Hlo.
  pose proof (tanh_bounds (c * uGlowAmount u / (uPillarWidth u / 3)))
    as [_ Hhi].
  revert Hlo Hhi.
  generalize (tanh (c * uGlowAmount u / (uPillarWidth u / 3))).
  intros th Hlo Hhi.
  assert (Hd : 0 <= rnd / 15 * uNoiseIntensity u <= uNoiseIntensity u / 15).
  { split.
    - apply Rmult_le_pos; [lra | exact Hn].
    - replace (rnd / 15 * uNoiseIntensity u)
        with (rnd * (uNoiseIntensity u / 15)) by field.
      assert (0 <= uNoiseIntensity u / 15) by lra. nra. }
  revert Hd. generalize (rnd / 15 * uNoiseIntensity u).
  generalize (uNoiseIntensity u / 15). revert Hi.
  generalize (uIntensity u). intros I HI q d [Hd0 Hd1].
  split.
  - assert (0 <= (th - d + q) * I) by (apply Rmult_le_pos; lra). lra.
  - assert (0 <= (1 - (th - d)) * I) by (apply Rmult_le_pos; lra). lra.
Qed.

(** X19. With colours, glow, noise and intensity not negative and a
    positive pillar width, the pixel is opaque and each of its channels
    lies between [- noiseIntensity / 15 * intensity] and [intensity]. *)
Theorem pixel_range (u : Uniforms) (vUv fragCoord : vec2) :
  nonneg3 (uTopColor u) -> nonneg3 (uBottomColor u) ->
  0 <= uGlowAmount u -> 0 < uPillarWidth u ->
  0 <= uNoiseIntensity u -> 0 <= uIntensity u ->
  exists r g b,
    main u vUv fragCoord = (r, g, b, 1) /\
    - (uNoiseIntensity u / 15 * uIntensity u) <= r <= uIntensity u /\
    - (uNoiseIntensity u / 15 * uIntensity u) <= g <= uIntensity u /\
    - (uNoiseIntensity u / 15 * uIntensity u) <= b <= uIntensity u.
Proof.
  intros Ht Hb Hg Hw Hn Hi. unfold main.
  pose proof (raymarch_color_nonneg u (screenCoord u vUv) Ht Hb) as Hc.
  destruct (finalColor (raymarch u (screenCoord u vUv))) as [[c1 c2] c3].
  destruct Hc as (H1 & H2 & H3).
  assert (Hr : 0 <= noise fragCoord < 1)
    by (unfold noise; apply fract_unit).
  exists ((tanh (c1 * uGlowAmount u / (uPillarWidth u / 3))
           - noise fragCoord / 15 * uNoiseIntensity u) * uIntensity u),
         ((tanh (c2 * uGlowAmount u / (uPillarWidth u / 3))
           - noise fragCoord / 15 * uNoiseIntensity u) * uIntensity u),
         ((tanh (c3 * uGlowAmount u / (uPillarWidth u / 3))
           - noise fragCoord / 15 * uNoiseIntensity u) * uIntensity u).
  split; [reflexivity | ].
  repeat split; apply channel_range; assumption.
Qed.

Lemma pixel_range_witness :
  exists r g b,
    main pageUniforms (0.25, 0.75) (200, 450) = (r, g, b, 1) /\
    - (0.5 / 15 * 1) <= r <= 1 /\
    - (0.5 / 15 * 1) <= g <= 1 /\
    - (0.5 / 15 * 1) <= b <= 1.
Proof.
  apply (pixel_range pageUniforms (0.25, 0.75) (200, 450));
    unfold pageUniforms, nonneg3;
    cbn [uTopColor uBottomColor uGlowAmount uPillarWidth uNoiseIntensity
         uIntensity];
    lra.
Defined.

(** ** The domain warp *)

Lemma waveLoop_height (t : R) (n : nat) :
  forall (i f a x y z : R),
    0 <= a ->
    Rabs (snd (fst (waveLoop n i f a t (x, y, z))) - y)
    <= 2 * a * (1 - (1 / 2) ^ n).
Proof.
  induction n as [ | n IH]; intros i f a x y z Ha.
  - cbn [waveLoop fst snd pow]. replace (y - y) with 0 by ring.
    rewrite Rabs_R0. lra.
  - cbn [waveLoop]. unfold waveStep at 1.
    rewrite mul_vm_rot. cbn [fst snd add3 scale3].
    set (x1 := x * Rtrigo_def.cos 0.4 + z * - Rtrigo_def.sin 0.4).
    set (z1 := x * Rtrigo_def.sin 0.4 + z * Rtrigo_def.cos 0.4).
    set (y1 := y + Rtrigo_def.cos (x1 * f - t * i * 2) * a).
    assert (Hstep : Rabs (y1 - y) <= a).
    { unfold y1.
      replace (y + Rtrigo_def.cos (x1 * f - t * i * 2) * a - y)
        with (Rtrigo_def.cos (x1 * f - t * i * 2) * a) by ring.
      pose proof (COS_bound (x1 * f - t * i * 2)) as [Hc0 Hc1].
      apply Rabs_le. split; nra. }
    assert (Ha' : 0 <= a * HALF) by (unfold HALF; lra).
    specialize (IH (i + 1) (f * 2) (a * HALF)
                  (x1 + Rtrigo_def.cos (z1 * f - t * i * 2) * a) y1
                  (z1 + Rtrigo_def.cos (y * f - t * i * 2) * a) Ha').
    revert IH.
    generalize (snd (fst (waveLoop n (i + 1) (f * 2) (a * HALF) t
                            (x1 + Rtrigo_def.cos (z1 * f - t * i * 2) * a,
                             y1,
                             z1 + Rtrigo_def.cos (y * f - t * i * 2) * a)))).
    intros y2 IH.
    replace (y2 - y) with ((y2 - y1) + (y1 - y)) by ring.
    eapply Rle_trans; [apply Rabs_triang | ].
    unfold HALF in IH. cbn [pow].
    replace (2 * (a * 0.5) * (1 - (1 / 2) ^ n))
      with (a * (1 - (1 / 2) ^ n)) in IH by lra.
    lra.
Qed.

(** X20. The wave deformation moves a point up or down by at most
    [1.875], whatever the point and the time. *)
Theorem warp_height_bound (x y z t : R) :
  Rabs (snd (fst (applyWaveDeformation (x, y, z) t)) - y) <= 1.875.
Proof.
  unfold applyWaveDeformation.
  pose proof (waveLoop_height t 4 0 1 1 x y z ltac:(lra)) as H.
  cbn [pow] in H. lra.
Qed.

(** ** The pointer *)

Lemma march_same_angle (u : Uniforms) (m m' : vec2) :
  horizontalAngle (withMouse m u) = horizontalAngle (withMouse m' u) ->
  forall (n i : nat) (direction : vec3) (depth : R) (color : vec3),
    march n i (withMouse m u) direction depth color
    = march n i (withMouse m' u) direction depth color.
Proof.
  intro Hangle. induction n as [ | n IH]; intros i direction depth color.
  - reflexivity.
  - cbn [march].
    assert (Hpos : samplePos (withMouse m u) direction depth
                   = samplePos (withMouse m' u) direction depth).
    { unfold samplePos, rotX. rewrite Hangle. reflexivity. }
    rewrite Hpos.
    change (fieldDistance (withMouse m u))
      with (fieldDistance (withMouse m' u)).
    change (glow (withMouse m u)) with (glow (withMouse m' u)).
    destruct (Rltb _ EPSILON || Rltb maxDepth depth); [reflexivity | ].
    apply IH.
Qed.

(** X21. On an interactive instance a pointer off the vertical axis
    steers the pixel by its horizontal coordinate alone: the angle is
    [x * PI * 2] and the pixel does not depend on the pointer's [y]. *)
Theorem pointer_height_ignored (u : Uniforms) (x y y' : R)
  (vUv fragCoord : vec2) :
  uInteractive u = true -> x <> 0 ->
  horizontalAngle (withMouse (x, y) u) = x * PI * 2 /\
  main (withMouse (x, y) u) vUv fragCoord
  = main (withMouse (x, y') u) vUv fragCoord.
Proof.
  intros Hon Hx.
  assert (Hlen : forall w, 0 < length2 (x, w)).
  { intro w. unfold length2; cbn [fst snd]. apply sqrt_lt_R0. nra. }
  assert (Hang : forall w, horizontalAngle (withMouse (x, w) u) = x * PI * 2).
  { intro w. unfold horizontalAngle. cbn [uInteractive uMouse withMouse].
    rewrite Hon, (Rltb_true _ _ (Hlen w)). reflexivity. }
  split; [apply Hang | ].
  unfold main, raymarch.
  change (screenCoord (withMouse (x, y) u))
    with (screenCoord (withMouse (x, y') u)).
  rewrite (march_same_angle u (x, y) (x, y')); [reflexivity | ].
  rewrite !Hang. reflexivity.
Qed.

Lemma pointer_height_ignored_witness :
  horizontalAngle (withMouse (0.5, 0.25) pointedUniforms) = 0.5 * PI * 2 /\
  main (withMouse (0.5, 0.25) pointedUniforms) (0.25, 0.75) (200, 450)
  = main (withMouse (0.5, -1) pointedUniforms) (0.25, 0.75) (200, 450).
Proof.
  apply (pointer_height_ignored pointedUniforms 0.5 0.25 (-1));
    [reflexivity | lra].
Defined.

End ShaderExtras.

(* ================================================================== *)
(** * The class *)
(* ================================================================== *)

Section HostFacts.

Import Host.
Open Scope Q_scope.

(** Evaluation of the state machine that leaves the arithmetic and the
    option defaulting folded. *)
Ltac hsimpl :=
  cbn -[Qplus Qmult Qminus Qdiv Qopp Qmin Z.add Z.leb Pos.eqb Pos.succ
        or_num or_str or_bool resolve_options].

Lemma animate_running (o : Config) (s : State) :
  running o s ->
  exists s', animate s = Normal s' /\ running o s' /\
             time s' = time s + fixedIncrement * rotationSpeed o.
Proof.
  unfold running. destruct s; cbn [options material renderer scene camera].
  intros (Ho & Hm & Hr & Hs & Hc). subst.
  destruct material0 as [m | ]; [ | contradiction].
  destruct renderer0 as [r | ]; [ | contradiction].
  eexists. split; [reflexivity | ].
  cbn. repeat split; congruence.
Qed.

Lemma ticks_running (o : Config) (n : nat) :
  forall s, running o s ->
  exists s', ticks n s = Normal s' /\ running o s' /\
             time s' == time s
                        + inject_Z (Z.of_nat n)
                          * (fixedIncrement * rotationSpeed o).
Proof.
  induction n as [ | n IH]; intros s Hs.
  - exists s. split; [reflexivity | ]. split; [exact Hs | ]. cbn. ring.
  - destruct (animate_running o s Hs) as (s1 & H1 & Hr1 & Ht1).
    destruct (IH s1 Hr1) as (s2 & H2 & Hr2 & Ht2).
    exists s2. cbn [ticks]. rewrite H1. cbn [bind].
    split; [exact H2 | ]. split; [exact Hr2 | ].
    rewrite Ht2, Ht1. rewrite Nat2Z.inj_succ. unfold Z.succ.
    rewrite inject_Z_plus. ring.
Qed.

(** What a construction that reaches the end of [init] leaves behind. *)
Lemma construct_ready (p : Page) (opts : Options) (c : Container) :
  element p = Some c -> webgl p = true -> rendererThrows p = false ->
  exists s m r c',
    construct p opts = Normal s /\
    options s = Some (resolve_options opts) /\
    material s = Some m /\ renderer s = Some r /\ container s = Some c' /\
    scene s = true /\ camera s = true /\ geometry s = true /\
    width r = clientWidth c /\ height r = clientHeight c /\
    pixelRatio r = Qmin (devicePixelRatio p) 2 /\
    clientWidth c' = clientWidth c /\ clientHeight c' = clientHeight c /\
    uInteractive m = interactive (resolve_options opts) /\
    handleMouseMove s = interactive (resolve_options opts) /\
    page s = p.
Proof.
  intros He Hw Ht. unfold construct. rewrite He. destruct c.
  destruct ((clientWidth _ =? 0)%Z || (clientHeight _ =? 0)%Z);
    unfold init; hsimpl; rewrite Hw, Ht; hsimpl;
    destruct (interactive (resolve_options opts)) eqn:Ei; hsimpl;
    do 4 eexists; (split; [reflexivity | ]); hsimpl;
    repeat split; reflexivity.
Qed.

Lemma construct_running (p : Page) (opts : Options) (c : Container) :
  element p = Some c -> webgl p = true -> rendererThrows p = false ->
  exists s, construct p opts = Normal s /\ running (resolve_options opts) s.
Proof.
  intros He Hw Ht.
  destruct (construct_ready p opts c He Hw Ht)
    as (s & m & r & c' & H & Ho & Hm & Hr & _ & Hs & Hc & _).
  exists s. split; [exact H | ]. unfold running. repeat split; congruence.
Qed.

(** Construction always returns, with [this.options] and
    [this.container] assigned as soon as the container was found. *)
Lemma construct_returns (p : Page) (opts : Options) :
  exists s, construct p opts = Normal s /\
            (forall c, element p = Some c ->
                       options s = Some (resolve_options opts) /\
                       container s <> None).
Proof.
  unfold construct. destruct (element p) as [c | ] eqn:He.
  - destruct c.
    destruct ((clientWidth _ =? 0)%Z || (clientHeight _ =? 0)%Z);
      unfold init; hsimpl;
      destruct (webgl p); hsimpl;
      destruct (rendererThrows p); hsimpl;
      destruct (interactive (resolve_options opts)); hsimpl;
      (eexists; split; [reflexivity | ]); intros c0 _; hsimpl;
      (split; [reflexivity | discriminate]).
  - eexists. split; [reflexivity | ]. intros c Hc. discriminate Hc.
Qed.

(** ** Teardown and fallback *)

(** [destroy] on an instance whose options and container are assigned:
    it returns, keeps every handle, and disposes of each handle it holds
    exactly once. *)
Lemma destroy_releases (s : State) (o : Config) (c : Container) :
  options s = Some o -> container s = Some c ->
  exists s' c',
    destroy s = Normal s' /\
    options s' = Some o /\ container s' = Some c' /\
    renderer s' = renderer s /\ material s' = material s /\
    geometry s' = geometry s /\
    performed is_dispose_renderer s'
    = (performed is_dispose_renderer s + holds_renderer s)%nat /\
    performed is_dispose_material s'
    = (performed is_dispose_material s + holds_material s)%nat /\
    performed is_dispose_geometry s'
    = (performed is_dispose_geometry s + holds_geometry s)%nat.
Proof.
  destruct s; cbn [options container]. intros -> ->. destruct c.
  unfold destroy, holds_renderer, holds_material, holds_geometry, performed.
  destruct rafId0 as [id | ];
    [destruct rafPending0 as [pending | ];
       [hsimpl; destruct (Pos.eqb pending id) | ] | ];
    hsimpl;
    destruct (interactive o); destruct handleMouseMove0; hsimpl;
    destruct handleResize0; hsimpl;
    (destruct renderer0 as [r | ]; [destruct hasCanvas0 | ]); hsimpl;
    destruct material0 as [m | ]; hsimpl;
    destruct geometry0; hsimpl;
    do 2 eexists; (split; [reflexivity | ]); hsimpl;
    repeat split; lia.
Qed.


(** C6 (as amended). For every page on which the container is found and
    every options bag, [destroy()] returns normally on the constructed
    instance, however far [init] got (no context, a renderer that failed
    to build, a full pipeline), and so does a second [destroy()].  No
    handle is cleared by [destroy()]: each call disposes once of every
    handle the instance holds, so two calls dispose twice of the renderer,
    the material and the geometry that exist. *)
Theorem destroy_twice_returns (p : Page) (opts : Options) (c : Container) :
  element p = Some c ->
  exists s0 s1 s2,
    construct p opts = Normal s0 /\
    destroy s0 = Normal s1 /\ destroy s1 = Normal s2 /\
    renderer s2 = renderer s0 /\ material s2 = material s0 /\
    geometry s2 = geometry s0 /\
    performed is_dispose_renderer s1
    = (performed is_dispose_renderer s0 + holds_renderer s0)%nat /\
    performed is_dispose_renderer s2
    = (performed is_dispose_renderer s0 + 2 * holds_renderer s0)%nat /\
    performed is_dispose_material s2
    = (performed is_dispose_material s0 + 2 * holds_material s0)%nat /\
    performed is_dispose_geometry s2
    = (performed is_dispose_geometry s0 + 2 * holds_geometry s0)%nat.
Proof.
  intro He.
  destruct (construct_returns p opts) as (s0 & H0 & Hinit).
  destruct (Hinit c He) as [Ho Hc].
  destruct (container s0) as [c0 | ] eqn:Ec0; [ | contradiction].
  destruct (destroy_releases s0 _ c0 Ho Ec0)
    as (s1 & c1 & H1 & Ho1 & Hc1 & Hr1 & Hm1 & Hg1 & Pr1 & Pm1 & Pg1).
  destruct (destroy_releases s1 _ c1 Ho1 Hc1)
    as (s2 & c2 & H2 & _ & _ & Hr2 & Hm2 & Hg2 & Pr2 & Pm2 & Pg2).
  exists s0, s1, s2.
  assert (Er : holds_renderer s1 = holds_renderer s0)
    by (unfold holds_renderer; rewrite Hr1; reflexivity).
  assert (Em : holds_material s1 = holds_material s0)
    by (unfold holds_material; rewrite Hm1; reflexivity).
  assert (Eg : holds_geometry s1 = holds_geometry s0)
    by (unfold holds_geometry; rewrite Hg1; reflexivity).
  repeat split; try assumption; try congruence; lia.
Qed.

Lemma destroy_twice_returns_witness :
  exists s0 s1 s2,
    construct plainPage no_options = Normal s0 /\
    destroy s0 = Normal s1 /\ destroy s1 = Normal s2 /\
    performed is_dispose_renderer s2
    = (performed is_dispose_renderer s0 + 2 * holds_renderer s0)%nat.
Proof.
  destruct (destroy_twice_returns plainPage no_options sampleBox eq_refl)
    as (s0 & s1 & s2 & H0 & H1 & H2 & _ & _ & _ & _ & Hr & _).
  exists s0, s1, s2. repeat split; assumption.
Defined.

(** Counterexample to C6 as the specification states it: on a fully
    initialised instance the second [destroy()] disposes of the renderer,
    the material and the geometry once more. *)
Lemma second_destroy_releases_again :
  exists s0 s1 s2,
    construct samplePage no_options = Normal s0 /\
    destroy s0 = Normal s1 /\ destroy s1 = Normal s2 /\
    performed is_dispose_renderer s2 = 2%nat /\
    performed is_dispose_material s2 = 2%nat /\
    performed is_dispose_geometry s2 = 2%nat.
Proof.
  do 3 eexists.
  split; [vm_compute; reflexivity | ].
  split; [vm_compute; reflexivity | ].
  split; [vm_compute; reflexivity | ].
  repeat split.
Qed.

(** When the container is not found the constructor returns before
    [this.options] is assigned, and [destroy()] then fails on
    [this.options.interactive]. *)
Lemma destroy_without_container (opts : Options) (w t : bool) (d : Q) :
  (s <- construct (mkPage None w t d) opts ;; destroy s) = Throw TypeError.
Proof. reflexivity. Qed.

(** C7. When the probe finds no context, construction returns normally
    with no scene, camera, renderer, material, geometry or mesh, no
    handler and no listener, no frame requested and nothing drawn or
    performed beyond console warnings, and the container's background
    is ["transparent"], the container being otherwise as the page had
    it. *)
Theorem fallback_when_unsupported (p : Page) (opts : Options) (c : Container) :
  element p = Some c -> webgl p = false ->
  exists s c',
    construct p opts = Normal s /\
    scene s = false /\ camera s = false /\ renderer s = None /\
    material s = None /\ geometry s = false /\ mesh s = false /\
    handleMouseMove s = false /\ handleResize s = false /\
    resizeListener s = false /\ rafId s = None /\ rafPending s = None /\
    performed is_draw s = 0%nat /\
    (forall e, In e (log s) -> e = ConsoleWarn) /\
    container s = Some c' /\
    background c' = Some "transparent"%string /\
    c' = mkContainer (clientWidth c) (clientHeight c) (rectLeft c)
           (rectTop c) (rectWidth c) (rectHeight c)
           (Some "transparent"%string) (hasCanvas c) (mouseListener c).
Proof.
  intros He Hw. unfold construct. rewrite He. destruct c.
  destruct ((clientWidth _ =? 0)%Z || (clientHeight _ =? 0)%Z);
    unfold init; hsimpl; rewrite Hw; hsimpl;
    (do 2 eexists; split; [reflexivity | ]); hsimpl;
    repeat (split; [reflexivity | ]);
    (split; [ | repeat split]);
    intros e Hin;
    repeat (destruct Hin as [<- | Hin]; [reflexivity | ]);
    contradiction.
Qed.

Lemma fallback_when_unsupported_witness :
  exists s c',
    construct plainPage no_options = Normal s /\
    renderer s = None /\ material s = None /\ rafId s = None /\
    container s = Some c' /\ background c' = Some "transparent"%string.
Proof.
  destruct (fallback_when_unsupported plainPage no_options sampleBox
              eq_refl eq_refl)
    as (s & c' & H & _ & _ & Hr & Hm & _ & _ & _ & _ & _ & Hraf & _ & _
        & _ & Hc & Hb & _).
  exists s, c'. repeat split; assumption.
Defined.

(** ** Pointer throttling *)

(** While the throttle timer is pending, a pointer event changes
    nothing: it is dropped, not kept for later. *)
Lemma onMouseMove_dropped (now due : Z) (x y : Q) (s : State) :
  mouseMoveTimeout s = Some due -> onMouseMove now x y s = Normal s.
Proof. intro H. unfold onMouseMove. rewrite H. reflexivity. Qed.

(** A timer that is not yet due is not served. *)
Lemma mouseTimer_early (now due : Z) (s : State) :
  mouseMoveTimeout s = Some due -> (now < due)%Z -> mouseTimerFired now s = s.
Proof.
  intros H Hlt. unfold mouseTimerFired. rewrite H.
  destruct (Z.leb_spec due now); [lia | reflexivity].
Qed.

(** Once an update was accepted inside the window, the rest of the
    window leaves the instance untouched. *)
Lemma window_closed (t0 due : Z) (es : list Event) :
  forall s, forallb (in_window t0) es = true ->
            mouseMoveTimeout s = Some due -> (t0 + 16 <= due)%Z ->
            run s es = Normal s.
Proof.
  induction es as [ | e es IH]; intros s Hw Hs Hdue; [reflexivity | ].
  cbn [forallb] in Hw. apply andb_prop in Hw. destruct Hw as [He Hw].
  assert (Hstep : step s e = Normal s).
  { destruct e; cbn [in_window] in He; try discriminate He;
      apply andb_prop in He; destruct He as [_ Hlt]; apply Z.ltb_lt in Hlt;
      cbn [step].
    - destruct (container s) as [c | ]; [ | reflexivity].
      destruct (mouseListener c && handleMouseMove s); [ | reflexivity].
      apply onMouseMove_dropped with (due := due). exact Hs.
    - rewrite (mouseTimer_early now due s Hs); [reflexivity | lia]. }
  cbn [run]. rewrite Hstep. cbn [bind]. apply IH; assumption.
Qed.

(** C8. Whatever the state of the throttle when the window opens, pointer
    events and timer services that all fall inside one window of 16 ms
    are handled without error and lead to at most one accepted update of
    the pointer position; an event that meets a pending timer is dropped:
    it leaves the instance exactly as it was, nothing is kept for later. *)
Theorem pointer_throttle (t0 : Z) (es : list Event) :
  forallb (in_window t0) es = true ->
  forall s,
    (exists s',
       run s es = Normal s' /\
       (performed is_pointer_update s'
        <= performed is_pointer_update s + 1)%nat) /\
    (forall (now due : Z) (x y : Q),
       mouseMoveTimeout s = Some due -> onMouseMove now x y s = Normal s).
Proof.
  intros Hw s. split; [ | intros now due x y; apply onMouseMove_dropped].
  revert Hw s. induction es as [ | e es IH]; intros Hw s.
  - exists s. split; [reflexivity | lia].
  - cbn [forallb] in Hw. apply andb_prop in Hw. destruct Hw as [He Hw].
    destruct e; cbn [in_window] in He; try discriminate He;
      apply andb_prop in He; destruct He as [Hge Hlt];
      apply Z.leb_le in Hge; apply Z.ltb_lt in Hlt; cbn [run step].
    + (* a pointer event *)
      destruct (container s) as [c | ] eqn:Ec;
        [ | cbn [bind]; apply IH; exact Hw].
      destruct (mouseListener c && handleMouseMove s);
        [ | cbn [bind]; apply IH; exact Hw].
      unfold onMouseMove.
      destruct (mouseMoveTimeout s) as [due | ] eqn:Et;
        [cbn [bind]; apply IH; exact Hw | ].
      destruct s; cbn [container] in Ec; subst. hsimpl.
      eexists. split.
      * apply window_closed with (t0 := t0) (due := (now + 16)%Z);
          [exact Hw | reflexivity | lia].
      * unfold performed. hsimpl. lia.
    + (* the timer is served *)
      cbn [bind].
      destruct (IH Hw (mouseTimerFired now s)) as (s' & Hrun & Hle).
      exists s'. split; [exact Hrun | ].
      assert (Hsame : performed is_pointer_update (mouseTimerFired now s)
                      = performed is_pointer_update s).
      { unfold mouseTimerFired. destruct (mouseMoveTimeout s) as [due | ];
          [ | reflexivity].
        destruct (due <=? now)%Z; [ | reflexivity].
        destruct s; reflexivity. }
      lia.
Qed.

Lemma pointer_throttle_witness :
  exists s0,
    construct samplePage interactiveOptions = Normal s0 /\
    exists s',
      run s0 burst = Normal s' /\
      (performed is_pointer_update s' <= performed is_pointer_update s0 + 1)%nat.
Proof.
  eexists. split; [vm_compute; reflexivity | ].
  apply (pointer_throttle 0 burst). reflexivity.
Defined.

(** On the sample page the burst of a hundred events moves the pointer
    once, to where its first event points: the left edge at mid-height. *)
Example burst_accepts_one :
  exists s0 s',
    construct samplePage interactiveOptions = Normal s0 /\
    run s0 burst = Normal s' /\
    performed is_pointer_update s0 = 0%nat /\
    performed is_pointer_update s' = 1%nat /\
    fst (mouse s') == -1 /\ snd (mouse s') == 0.
Proof.
  do 2 eexists.
  split; [vm_compute; reflexivity | ].
  split; [vm_compute; reflexivity | ].
  repeat split.
Qed.

(** ** Resizing and pixel density *)

(** The debounce callback hands the container's size to the renderer and
    to the resolution uniform as it finds it, and draws nothing. *)
Lemma resizeCallback_forwards (s : State) (r : Renderer) (m : Material)
  (c : Container) :
  renderer s = Some r -> material s = Some m -> container s = Some c ->
  exists r' m',
    renderer (resizeCallback s) = Some r' /\
    material (resizeCallback s) = Some m' /\
    width r' = clientWidth c /\ height r' = clientHeight c /\
    uResolution m' = (clientWidth c, clientHeight c) /\
    log (resizeCallback s)
    = SetSize (clientWidth c) (clientHeight c) :: log s.
Proof.
  destruct s; cbn [renderer material container]. intros -> -> ->.
  destruct m. do 2 eexists. hsimpl. repeat split.
Qed.

Lemma resizeCallback_draws_nothing (s : State) :
  performed is_draw (resizeCallback s) = performed is_draw s.
Proof.
  unfold resizeCallback.
  destruct (renderer s) as [r | ] eqn:Er; [ | reflexivity].
  destruct (material s) as [m | ] eqn:Em; [ | reflexivity].
  destruct (container s) as [c | ] eqn:Ec; [ | reflexivity].
  destruct s; destruct m; reflexivity.
Qed.

(** Handling a resize event and serving its timer never draws. *)
Lemma resize_path_draws_nothing (s : State) (now : Z) :
  performed is_draw (onResize now s) = performed is_draw s /\
  performed is_draw (resizeTimerFired now s) = performed is_draw s.
Proof.
  split.
  - destruct s; reflexivity.
  - unfold resizeTimerFired. destruct (resizePending s) as [due | ] eqn:E;
      [ | reflexivity].
    destruct (due <=? now)%Z; [ | reflexivity].
    rewrite resizeCallback_draws_nothing. destruct s; reflexivity.
Qed.

(** A frame draws at whatever size the renderer has. *)
Lemma animate_draws (o : Config) (s : State) (r : Renderer) :
  running o s -> renderer s = Some r ->
  exists s' t id,
    animate s = Normal s' /\
    log s' = RequestFrame id :: Draw (width r) (height r) t :: log s.
Proof.
  unfold running. destruct s; cbn [options material renderer scene camera].
  intros (Ho & Hm & _ & Hs & Hc) Hr. subst.
  destruct material0 as [m | ]; [ | contradiction].
  do 3 eexists. split; reflexivity.
Qed.

(** C3 (as amended). The resize handler and its debounce callback never
    draw: the callback only forwards the container's current size
    [(w, h)], zero or not and without any test of its sign, to the
    renderer and to the resolution uniform.  Drawing is done by the
    animation tick alone, at whatever size the renderer then has. *)
Theorem resize_forwards_any_size (s : State) (o : Config) (r : Renderer)
  (m : Material) (c : Container) (now : Z) :
  running o s -> renderer s = Some r -> material s = Some m ->
  container s = Some c ->
  performed is_draw (onResize now s) = performed is_draw s /\
  performed is_draw (resizeTimerFired now s) = performed is_draw s /\
  (exists r' m',
     renderer (resizeCallback s) = Some r' /\
     material (resizeCallback s) = Some m' /\
     width r' = clientWidth c /\ height r' = clientHeight c /\
     uResolution m' = (clientWidth c, clientHeight c) /\
     performed is_draw (resizeCallback s) = performed is_draw s) /\
  (exists s' t id,
     animate s = Normal s' /\
     log s' = RequestFrame id :: Draw (width r) (height r) t :: log s).
Proof.
  intros Hrun Hr Hm Hc.
  destruct (resize_path_draws_nothing s now) as [H1 H2].
  destruct (resizeCallback_forwards s r m c Hr Hm Hc)
    as (r' & m' & Er & Em & Hw & Hh & Hu & _).
  split; [exact H1 | ]. split; [exact H2 | ]. split.
  - exists r', m'. repeat split; try assumption.
    apply resizeCallback_draws_nothing.
  - apply animate_draws with (o := o); assumption.
Qed.


Lemma resize_forwards_any_size_witness :
  exists s,
    (s0 <- construct samplePage no_options ;; step s0 (Layout 0 600))
    = Normal s /\
    exists r',
      renderer (resizeCallback s) = Some r' /\ width r' = 0%Z /\
      performed is_draw (resizeCallback s) = performed is_draw s.
Proof.
  eexists. split; [vm_compute; reflexivity | ].
  match goal with
  | |- context [resizeCallback ?st] =>
      edestruct resize_forwards_any_size with (s := st) (now := 0%Z)
        as (_ & _ & (r' & m' & Er & _ & Hw & _ & _ & Hd) & _)
  end.
  - unfold running. split; [reflexivity | ]. repeat split; discriminate.
  - reflexivity.
  - reflexivity.
  - reflexivity.
  - exists r'. split; [exact Er | ]. split; [exact Hw | exact Hd].
Defined.

(** Counterexample to C3 as the specification states it: after the
    container shrinks to [0 x 600] and the debounce timer is served, the
    next frame is drawn on a surface of width zero. *)
Lemma zero_width_surface_is_drawn :
  exists s t,
    (s0 <- construct samplePage no_options ;;
     run s0 [Layout 0 600; WindowResize 0; ResizeTimer 150; Frame])
    = Normal s /\
    In (Draw 0 600 t) (log s).
Proof.
  do 2 eexists. split; [vm_compute; reflexivity | ].
  right. left. reflexivity.
Qed.

(** C4 (as amended). The pixel ratio handed to the renderer is the device
    pixel ratio capped at 2, with no lower bound: the effective pixel
    dimensions are the logical size times [min(devicePixelRatio, 2)],
    which is the specification's clamp to [[1, 2]] whenever the device
    pixel ratio is at least 1. *)
Theorem pixel_ratio_capped (p : Page) (opts : Options) (c : Container) :
  element p = Some c -> webgl p = true -> rendererThrows p = false ->
  exists s r,
    construct p opts = Normal s /\ renderer s = Some r /\
    pixelRatio r = Qmin (devicePixelRatio p) 2 /\
    effectiveSize r
    = (inject_Z (clientWidth c) * Qmin (devicePixelRatio p) 2,
       inject_Z (clientHeight c) * Qmin (devicePixelRatio p) 2) /\
    (1 <= devicePixelRatio p ->
     pixelRatio r == clamp (devicePixelRatio p) 1 2).
Proof.
  intros He Hw Ht.
  destruct (construct_ready p opts c He Hw Ht)
    as (s & m & r & c' & H & _ & _ & Hr & _ & _ & _ & _ & Hwd & Hhd & Hpr & _).
  exists s, r. split; [exact H | ]. split; [exact Hr | ].
  split; [exact Hpr | ]. split.
  - unfold effectiveSize. rewrite Hwd, Hhd, Hpr. reflexivity.
  - intro Hge. rewrite Hpr. unfold clamp.
    rewrite (Q.max_l (devicePixelRatio p) 1 Hge). reflexivity.
Qed.

Lemma pixel_ratio_capped_witness :
  exists s r,
    construct densePage no_options = Normal s /\ renderer s = Some r /\
    pixelRatio r = Qmin 3 2 /\
    effectiveSize r = (inject_Z 800 * Qmin 3 2, inject_Z 600 * Qmin 3 2).
Proof.
  destruct (pixel_ratio_capped densePage no_options sampleBox
              eq_refl eq_refl eq_refl)
    as (s & r & H & Hr & Hp & He & _).
  exists s, r. repeat split; assumption.
Defined.

(** Counterexample to C4 as the specification states it: a device pixel
    ratio of one half reaches the renderer as one half, not raised to
    1. *)
Lemma low_pixel_ratio_is_kept :
  exists s r,
    construct coarsePage no_options = Normal s /\ renderer s = Some r /\
    pixelRatio r == 1 # 2 /\
    ~ pixelRatio r == clamp (devicePixelRatio coarsePage) 1 2 /\
    fst (effectiveSize r) == 400 /\
    ~ fst (effectiveSize r)
      == inject_Z 800 * clamp (devicePixelRatio coarsePage) 1 2.
Proof.
  do 2 eexists. split; [vm_compute; reflexivity | ].
  split; [reflexivity | ]. split; [reflexivity | ].
  split; [vm_compute; discriminate | ].
  split; [reflexivity | vm_compute; discriminate].
Qed.

(** ** Options and the time accumulator *)

(** [v || d] keeps every number that is not zero, negative ones too, and
    falls back to [d] on zero and on a missing value. *)
Lemma or_num_spec (v : option Q) (d : Q) :
  (forall q, v = Some q -> ~ q == 0 -> or_num v d = q) /\
  (forall q, v = Some q -> q == 0 -> or_num v d = d) /\
  (v = None -> or_num v d = d).
Proof.
  unfold or_num. repeat split.
  - intros q -> Hq. destruct (Qeq_bool q 0) eqn:E; [ | reflexivity].
    apply Qeq_bool_eq in E. contradiction.
  - intros q -> Hq. rewrite (Qeq_eq_bool q 0 Hq). reflexivity.
  - intros ->. reflexivity.
Qed.

(** C2 (as amended). Construction never fails on account of an option
    value, and no error of any class leaves the constructor: every options
    bag yields an instance.  A numeric option that is a number other than
    zero is stored unchanged, a negative one included; a missing or zero
    one is replaced by its default. *)
Theorem construction_accepts_any_options (p : Page) (opts : Options) :
  exists s,
    construct p opts = Normal s /\
    (forall c, element p = Some c -> options s = Some (resolve_options opts)) /\
    (forall q, o_intensity opts = Some q -> ~ q == 0 ->
               intensity (resolve_options opts) = q) /\
    (forall q, o_noiseIntensity opts = Some q -> ~ q == 0 ->
               noiseIntensity (resolve_options opts) = q) /\
    (forall q, o_glowAmount opts = Some q -> ~ q == 0 ->
               glowAmount (resolve_options opts) = q) /\
    (forall q, o_pillarWidth opts = Some q -> ~ q == 0 ->
               pillarWidth (resolve_options opts) = q) /\
    (forall q, o_pillarHeight opts = Some q -> ~ q == 0 ->
               pillarHeight (resolve_options opts) = q) /\
    (o_glowAmount opts = None \/ o_glowAmount opts = Some 0 ->
     glowAmount (resolve_options opts) = 5 # 1000) /\
    (o_pillarWidth opts = None \/ o_pillarWidth opts = Some 0 ->
     pillarWidth (resolve_options opts) = 3) /\
    (o_pillarHeight opts = None \/ o_pillarHeight opts = Some 0 ->
     pillarHeight (resolve_options opts) = 4 # 10).
Proof.
  destruct (construct_returns p opts) as (s & H & Hinit).
  exists s. split; [exact H | ].
  split; [intros c Hc; apply (Hinit c Hc) | ].
  unfold resolve_options; cbn [intensity noiseIntensity glowAmount
                                 pillarWidth pillarHeight].
  repeat split;
    try (intros q Hq Hnz; apply (or_num_spec _ _); assumption);
    intros [-> | ->]; reflexivity.
Qed.

(** Counterexample to C2 as the specification states it: an intensity
    of [-1] violates the specification's constraint, yet construction
    returns an instance that carries it. *)
Lemma negative_intensity_is_accepted :
  violates_constraints (with_intensity (-1)) = true /\
  construct samplePage (with_intensity (-1)) <> Throw ConfigurationError /\
  exists s o,
    construct samplePage (with_intensity (-1)) = Normal s /\
    options s = Some o /\ intensity o == -1.
Proof.
  split; [reflexivity | ].
  split; [vm_compute; discriminate | ].
  do 2 eexists. split; [vm_compute; reflexivity | ].
  split; reflexivity.
Qed.

(** C1 (as amended). On every instance whose pipeline was built, each
    tick advances the accumulated time by exactly [fixedIncrement] times
    the effective rotation speed, which is the given [rotationSpeed] when
    that is a number other than zero and [0.3] otherwise: after [n] ticks
    with [rotationSpeed = 1] the time has advanced by [n * fixedIncrement],
    and an instance constructed with [rotationSpeed = 0] runs at the
    default speed, advancing by [n * fixedIncrement * 0.3]. *)
Theorem ticks_advance_time (p : Page) (opts : Options) (c : Container)
  (n : nat) :
  element p = Some c -> webgl p = true -> rendererThrows p = false ->
  exists s0 sn,
    construct p opts = Normal s0 /\ ticks n s0 = Normal sn /\
    time sn == time s0
               + inject_Z (Z.of_nat n)
                 * (fixedIncrement * or_num (o_rotationSpeed opts) (3 # 10)) /\
    (o_rotationSpeed opts = Some 1 ->
     time sn == time s0 + inject_Z (Z.of_nat n) * fixedIncrement) /\
    (o_rotationSpeed opts = Some 0 ->
     time sn == time s0 + inject_Z (Z.of_nat n) * (fixedIncrement * (3 # 10))).
Proof.
  intros He Hw Ht.
  destruct (construct_running p opts c He Hw Ht) as (s0 & H0 & Hrun).
  destruct (ticks_running (resolve_options opts) n s0 Hrun)
    as (sn & Hn & _ & Htime).
  exists s0, sn. split; [exact H0 | ]. split; [exact Hn | ].
  cbn [resolve_options rotationSpeed] in Htime.
  split; [exact Htime | ]. split.
  - intro E. rewrite E in Htime.
    change (or_num (Some 1) (3 # 10)) with 1 in Htime.
    rewrite Htime. ring.
  - intro E. rewrite E in Htime. exact Htime.
Qed.

Lemma ticks_advance_time_witness :
  exists s0 sn,
    construct samplePage (with_rotationSpeed 1) = Normal s0 /\
    ticks 3 s0 = Normal sn /\
    time sn == time s0 + inject_Z 3 * fixedIncrement.
Proof.
  destruct (ticks_advance_time samplePage (with_rotationSpeed 1) sampleBox 3
              eq_refl eq_refl eq_refl)
    as (s0 & sn & H0 & Hn & _ & H1 & _).
  exists s0, sn. split; [exact H0 | ]. split; [exact Hn | ].
  apply H1. reflexivity.
Defined.

(** Counterexample to C1 as the specification states it: an instance
    constructed with [rotationSpeed = 0] does advance its time at the
    next tick. *)
Lemma zero_rotation_speed_still_advances :
  exists s0 s1,
    construct samplePage (with_rotationSpeed 0) = Normal s0 /\
    ticks 1 s0 = Normal s1 /\
    time s0 < time s1.
Proof.
  do 2 eexists. split; [vm_compute; reflexivity | ].
  split; [vm_compute; reflexivity | ].
  vm_compute. reflexivity.
Qed.

End HostFacts.

(* ================================================================== *)
(** * Further properties of the class *)
(* ================================================================== *)

Section HostExtras.

Import Host.
Open Scope Q_scope.

Ltac hsimpl :=
  cbn -[Qplus Qmult Qminus Qdiv Qopp Qmin Z.add Z.leb Pos.eqb Pos.succ
        or_num or_str or_bool resolve_options].

Ltac hsimpl_all :=
  cbn -[Qplus Qmult Qminus Qdiv Qopp Qmin Z.add Z.leb Pos.eqb Pos.succ
        or_num or_str or_bool resolve_options] in *.

(** ** Events never fail on an instance built around a container *)

Lemma animate_settled (o : Config) (s : State) :
  settled o s -> rafPending s = None ->
  exists s', animate s = Normal s' /\ settled o s'.
Proof.
  unfold settled.
  destruct s; cbn [options container rafPending rafId resizeListener
                     handleResize handleMouseMove].
  intros (Ho & Hc & _ & Hr) Hp. subst. unfold animate.
  destruct material0 as [m | ]; [ | eexists; split; [reflexivity | ];
                                    hsimpl; auto].
  destruct renderer0 as [r | ]; [ | eexists; split; [reflexivity | ];
                                    hsimpl; auto].
  destruct scene0; destruct camera0; hsimpl;
    (eexists; split; [reflexivity | ]); hsimpl; auto.
Qed.

Lemma destroy_settled (o : Config) (s : State) :
  settled o s ->
  exists s', destroy s = Normal s' /\ settled o s' /\ detached s'.
Proof.
  unfold settled, detached.
  destruct s; cbn [options container rafPending rafId resizeListener
                     handleResize handleMouseMove].
  intros (Ho & (c & Hc & Hl) & Hraf & Hr). subst. destruct c.
  cbn [mouseListener] in Hl. unfold destroy.
  assert (Hpend : rafPending0 = None \/
                  exists id, rafPending0 = Some id /\ rafId0 = Some id).
  { destruct Hraf as [-> | ->]; [left; reflexivity | ].
    destruct rafId0 as [id | ]; [right; exists id; auto | left; reflexivity]. }
  clear Hraf.
  destruct Hpend as [-> | (id & -> & ->)];
    [destruct rafId0 as [id | ] | ];
    hsimpl; rewrite ?Pos.eqb_refl;
    destruct (interactive o) eqn:Ei; destruct handleMouseMove0;
    destruct mouseListener0;
    try (destruct (Hl eq_refl) as [Hl1 Hl2]; discriminate);
    hsimpl; rewrite ?Ei; hsimpl;
    destruct handleResize0; destruct resizeListener0;
    try (discriminate (Hr eq_refl));
    hsimpl;
    (destruct renderer0 as [r | ]; [destruct hasCanvas0 | ]); hsimpl;
    destruct material0 as [m | ]; hsimpl;
    destruct geometry0; hsimpl;
    (eexists; split; [reflexivity | ]); hsimpl;
    (split; [split; [reflexivity | ];
             split; [eexists; split; [reflexivity | ]; hsimpl;
                     first [discriminate | auto]
                    | split; [left; reflexivity | first [discriminate | auto]]]
            | split; [reflexivity | ]; split; [reflexivity | ];
              intros c0 E; injection E as <-; reflexivity]).
Qed.

Lemma step_settled (o : Config) (s : State) (e : Event) :
  settled o s -> exists s', step s e = Normal s' /\ settled o s'.
Proof.
  intros Hs. destruct e as [ | t x y | t | t | t | w h | ].
  - (* Frame *)
    cbn [step]. destruct (rafPending s) as [id | ] eqn:Ep.
    + apply animate_settled; [ | destruct s; reflexivity].
      destruct s; unfold settled in *; hsimpl_all.
      destruct Hs as (Ho & Hc & _ & Hr). auto.
    + exists s. split; [reflexivity | exact Hs].
  - (* MouseMove *)
    unfold settled in *. destruct s; hsimpl_all.
    destruct Hs as (Ho & (c & Hc & Hl) & Hraf & Hr). subst.
    destruct c; hsimpl_all.
    destruct mouseListener0; destruct handleMouseMove0; hsimpl;
      try (eexists; split; [reflexivity | ]; hsimpl; eauto 10).
    unfold onMouseMove.
    destruct mouseMoveTimeout0; hsimpl;
      (eexists; split; [reflexivity | ]; hsimpl; eauto 10).
  - (* MouseTimer *)
    unfold settled in *. destruct s; hsimpl_all. unfold mouseTimerFired.
    destruct mouseMoveTimeout0 as [due | ]; hsimpl;
      [destruct (due <=? t)%Z | ];
      (eexists; split; [reflexivity | ]; hsimpl; exact Hs).
  - (* WindowResize *)
    unfold settled in *. destruct s; hsimpl_all.
    destruct resizeListener0; destruct handleResize0; hsimpl;
      (eexists; split; [reflexivity | ]; hsimpl; exact Hs).
  - (* ResizeTimer *)
    unfold settled in *. destruct s; hsimpl_all.
    unfold resizeTimerFired, resizeCallback.
    destruct resizePending0 as [due | ]; hsimpl;
      [destruct (due <=? t)%Z; hsimpl;
       [destruct renderer0; hsimpl;
        [destruct material0; hsimpl; [destruct container0 | ] | ] | ] | ];
      hsimpl; (eexists; split; [reflexivity | ]; hsimpl; exact Hs).
  - (* Layout *)
    unfold settled in *. destruct s; hsimpl_all.
    destruct Hs as (Ho & (c & Hc & Hl) & Hraf & Hr). subst.
    destruct c; hsimpl_all.
    eexists; split; [reflexivity | ]; hsimpl; eauto 10.
  - (* Destroy *)
    cbn [step]. destruct (destroy_settled o s Hs) as (s' & H & Hs' & _).
    exists s'. auto.
Qed.

Lemma run_settled (o : Config) (es : list Event) :
  forall s, settled o s -> exists s', run s es = Normal s' /\ settled o s'.
Proof.
  induction es as [ | e es IH]; intros s Hs.
  - exists s. split; [reflexivity | exact Hs].
  - destruct (step_settled o s e Hs) as (s1 & H1 & Hs1).
    destruct (IH s1 Hs1) as (s2 & H2 & Hs2).
    exists s2. cbn [run]. rewrite H1. cbn [bind]. auto.
Qed.

Lemma construct_settled (p : Page) (opts : Options) (c : Container) :
  element p = Some c -> mouseListener c = false ->
  exists s, construct p opts = Normal s /\ settled (resolve_options opts) s.
Proof.
  intros He Hl. unfold construct, settled. rewrite He. destruct c.
  cbn [mouseListener] in Hl. subst.
  destruct ((clientWidth _ =? 0)%Z || (clientHeight _ =? 0)%Z);
    unfold init; hsimpl;
    destruct (webgl p); hsimpl;
    destruct (rendererThrows p); hsimpl;
    destruct (interactive (resolve_options opts)) eqn:Ei; hsimpl;
    (eexists; split; [reflexivity | ]); hsimpl;
    (split; [reflexivity | ]);
    (split; [eexists; split; [reflexivity | ]; hsimpl;
             first [discriminate | auto] | ]);
    (split; [auto | first [discriminate | auto]]).
Qed.

Lemma step_assigned (o : Config) (s : State) (e : Event) :
  assigned o s -> exists s', step s e = Normal s' /\ assigned o s'.
Proof.
  unfold assigned. intros [Ho Hc].
  destruct (container s) as [c | ] eqn:Ec; [clear Hc | contradiction].
  destruct e as [ | t x y | t | t | t | w h | ].
  - (* Frame *)
    destruct s; hsimpl_all; subst. destruct rafPending0 as [id | ];
      [ | eexists; split; [reflexivity | ]; hsimpl; split; congruence].
    unfold animate; hsimpl.
    destruct material0 as [m | ]; hsimpl;
      [destruct renderer0 as [r | ]; hsimpl;
       [destruct scene0; destruct camera0 | ] | ]; hsimpl;
      (eexists; split; [reflexivity | ]; hsimpl; split; congruence).
  - (* MouseMove *)
    destruct s; hsimpl_all; subst. destruct c; hsimpl.
    destruct mouseListener0; destruct handleMouseMove0; hsimpl;
      try (eexists; split; [reflexivity | ]; hsimpl; split; congruence).
    unfold onMouseMove.
    destruct mouseMoveTimeout0; hsimpl;
      (eexists; split; [reflexivity | ]; hsimpl; split; congruence).
  - (* MouseTimer *)
    destruct s; hsimpl_all; subst. unfold mouseTimerFired.
    destruct mouseMoveTimeout0 as [due | ]; hsimpl;
      [destruct (due <=? t)%Z | ];
      (eexists; split; [reflexivity | ]; hsimpl; split; congruence).
  - (* WindowResize *)
    destruct s; hsimpl_all; subst.
    destruct resizeListener0; destruct handleResize0; hsimpl;
      (eexists; split; [reflexivity | ]; hsimpl; split; congruence).
  - (* ResizeTimer *)
    destruct s; hsimpl_all; subst.
    unfold resizeTimerFired, resizeCallback.
    destruct resizePending0 as [due | ]; hsimpl;
      [destruct (due <=? t)%Z; hsimpl;
       [destruct renderer0; hsimpl; [destruct material0; hsimpl | ] | ] | ];
      hsimpl; (eexists; split; [reflexivity | ]; hsimpl; split; congruence).
  - (* Layout *)
    destruct s; hsimpl_all; subst.
    eexists; split; [reflexivity | ]; hsimpl; split; congruence.
  - (* Destroy *)
    cbn [step].
    destruct (destroy_releases s o c Ho Ec) as (s' & c' & H & Ho' & Hc' & _).
    exists s'. split; [exact H | ]. split; congruence.
Qed.

Lemma run_assigned (o : Config) (es : list Event) :
  forall s, assigned o s -> exists s', run s es = Normal s' /\ assigned o s'.
Proof.
  induction es as [ | e es IH]; intros s Hs.
  - exists s. split; [reflexivity | exact Hs].
  - destruct (step_assigned o s e Hs) as (s1 & H1 & Hs1).
    destruct (IH s1 Hs1) as (s2 & H2 & Hs2).
    exists s2. cbn [run]. rewrite H1. cbn [bind]. auto.
Qed.

(** X1. On a page where the container is found, construction returns and
    no sequence of events makes the instance throw afterwards: frames,
    pointer moves, timers, resizes, layout changes and any number of
    [destroy()] calls, in any order. *)
Theorem events_never_throw (p : Page) (opts : Options) (c : Container)
    (es : list Event) :
  element p = Some c ->
  exists s s', construct p opts = Normal s /\ run s es = Normal s'.
Proof.
  intros He. destruct (construct_returns p opts) as (s & H & Hs).
  destruct (Hs c He) as [Ho Hc].
  destruct (run_assigned _ es s (conj Ho Hc)) as (s' & H' & _).
  exists s, s'. auto.
Qed.

Lemma events_never_throw_witness :
  exists s s',
    construct samplePage interactiveOptions = Normal s /\
    run s (burst ++ [Destroy; Frame; MouseTimer 20; Destroy]) = Normal s'.
Proof.
  exact (events_never_throw samplePage interactiveOptions sampleBox
           (burst ++ [Destroy; Frame; MouseTimer 20; Destroy]) eq_refl).
Defined.

Lemma run_app (a b : list Event) :
  forall s, run s (a ++ b) = (s' <- run s a ;; run s' b).
Proof.
  induction a as [ | e a IH]; intros s; [reflexivity | ].
  cbn [app run]. destruct (step s e) as [s1 | err]; cbn [bind];
    [apply IH | reflexivity].
Qed.

(** ** After [destroy()] *)

Lemma detached_inert (es : list Event) (s : State) :
  detached s -> forallb is_dispatched es = true -> run s es = Normal s.
Proof.
  intros (Hp & Hr & Hl).
  induction es as [ | e es IH]; [reflexivity | ].
  cbn [forallb]. intros H. apply andb_prop in H as [He Hes].
  assert (H1 : step s e = Normal s).
  { destruct e; try discriminate He; cbn [step].
    - rewrite Hp. reflexivity.
    - destruct (container s) as [c | ]; [ | reflexivity].
      rewrite (Hl c eq_refl). reflexivity.
    - rewrite Hr. reflexivity. }
  cbn [run]. rewrite H1. cbn [bind]. exact (IH Hes).
Qed.

(** X2. Once [destroy()] has run, however many events came before it,
    no frame callback, pointer move or window resize changes anything:
    nothing is drawn, requested or recorded any more. *)
Theorem destroyed_is_inert (p : Page) (opts : Options) (c : Container)
    (before after : list Event) :
  element p = Some c -> mouseListener c = false ->
  forallb is_dispatched after = true ->
  exists s s',
    construct p opts = Normal s /\
    run s (before ++ [Destroy]) = Normal s' /\
    run s' after = Normal s'.
Proof.
  intros He Hl Ha.
  destruct (construct_settled p opts c He Hl) as (s & H & Hs).
  destruct (run_settled _ before s Hs) as (s1 & H1 & Hs1).
  destruct (destroy_settled _ s1 Hs1) as (s2 & H2 & _ & Hd).
  exists s, s2. split; [exact H | ]. split.
  - rewrite run_app, H1. cbn [bind run step]. rewrite H2. reflexivity.
  - apply detached_inert; assumption.
Qed.

Lemma destroyed_is_inert_witness :
  exists s s',
    construct samplePage interactiveOptions = Normal s /\
    run s ([Frame; MouseMove 0 400 300] ++ [Destroy]) = Normal s' /\
    run s' [Frame; MouseMove 40 200 100; WindowResize 50] = Normal s'.
Proof.
  exact (destroyed_is_inert samplePage interactiveOptions sampleBox
           [Frame; MouseMove 0 400 300]
           [Frame; MouseMove 40 200 100; WindowResize 50]
           eq_refl eq_refl eq_refl).
Defined.

(** ** The debounced resize *)

Lemma onResize_last (t0 t : Z) (s : State) :
  onResize t (onResize t0 s) = onResize t s.
Proof. destruct s. reflexivity. Qed.

Lemma resizes_last (ts : list Z) :
  forall (t : Z) (s : State),
    resizeListener s = true -> handleResize s = true ->
    run s (List.map WindowResize (ts ++ [t])) = Normal (onResize t s).
Proof.
  induction ts as [ | t0 ts IH]; intros t s Hl Hh.
  - cbn. rewrite Hl, Hh. reflexivity.
  - cbn [app List.map run step]. rewrite Hl, Hh. cbn [andb bind].
    rewrite IH by (destruct s; assumption).
    rewrite onResize_last. reflexivity.
Qed.

(** X4. A burst of window resizes is worth its last event alone: nothing
    is performed while it lasts, only the timer of the last resize stays
    pending, a service before its 150 ms are over does nothing, and the
    first service after that forwards the container's current size once;
    any later service does nothing. *)
Theorem resize_debounce (s : State) (r : Renderer) (m : Material)
    (c : Container) (ts : list Z) (t : Z) :
  renderer s = Some r -> material s = Some m -> container s = Some c ->
  resizeListener s = true -> handleResize s = true ->
  exists s1,
    run s (List.map WindowResize (ts ++ [t])) = Normal s1 /\
    log s1 = log s /\ resizePending s1 = Some (t + 150)%Z /\
    (forall now, (now < t + 150)%Z -> step s1 (ResizeTimer now) = Normal s1) /\
    (forall now, (t + 150 <= now)%Z ->
       exists s2,
         step s1 (ResizeTimer now) = Normal s2 /\
         log s2 = SetSize (clientWidth c) (clientHeight c) :: log s /\
         forall now', step s2 (ResizeTimer now') = Normal s2).
Proof.
  intros Hr Hm Hc Hl Hh. exists (onResize t s).
  split; [apply resizes_last; assumption | ].
  destruct s; hsimpl_all; subst.
  split; [reflexivity | ]. split; [reflexivity | ]. split.
  - intros now Hn. unfold resizeTimerFired; hsimpl.
    destruct (Z.leb_spec (t + 150) now) as [H | H]; [lia | reflexivity].
  - intros now Hn. unfold resizeTimerFired; hsimpl.
    destruct (Z.leb_spec (t + 150) now) as [H | H]; [ | lia].
    eexists. split; [reflexivity | ]. split; reflexivity.
Qed.

Lemma resize_debounce_witness :
  exists s1,
    run (built samplePage no_options)
      (List.map WindowResize ([0; 50] ++ [100]))%Z = Normal s1 /\
    log s1 = log (built samplePage no_options) /\
    resizePending s1 = Some 250%Z.
Proof.
  edestruct (resize_debounce (built samplePage no_options))
    with (ts := [0; 50]%Z) (t := 100%Z) as (s1 & H1 & Hlog & Hp & _);
    [reflexivity | reflexivity | reflexivity | reflexivity | reflexivity | ].
  exists s1. split; [exact H1 | ]. split; [exact Hlog | exact Hp].
Defined.

(** X3. [destroy()] removes the resize listener but leaves the debounce
    timer pending: a resize that came less than 150 ms before
    [destroy()] still has its callback run afterwards, which calls
    [setSize] on the renderer that was disposed of. *)
Theorem resize_timer_outlives_destroy (o : Config) (s : State)
    (c : Container) (t now : Z) :
  running o s -> container s = Some c ->
  resizeListener s = true -> handleResize s = true ->
  (t + 150 <= now)%Z ->
  exists s' l,
    run s [WindowResize t; Destroy; ResizeTimer now] = Normal s' /\
    log s' = SetSize (clientWidth c) (clientHeight c) :: l /\
    In DisposeRenderer l /\ resizeListener s' = false.
Proof.
  unfold running. intros (Ho & Hm & Hr & Hs & Hca) Hc Hl Hh Hn.
  destruct s; hsimpl_all; subst. destruct c.
  destruct material0 as [m | ]; [ | contradiction].
  destruct renderer0 as [r | ]; [ | contradiction].
  unfold destroy, resizeTimerFired, resizeCallback; hsimpl.
  destruct (Z.leb_spec (t + 150) now) as [H | H]; [clear H | lia].
  destruct rafId0 as [id | ];
    [destruct rafPending0 as [pending | ];
       [hsimpl; destruct (Pos.eqb pending id) | ] | ];
    hsimpl;
    destruct (interactive o); destruct handleMouseMove0; hsimpl;
    destruct hasCanvas0; hsimpl; destruct geometry0; hsimpl;
    rewrite ?Z.leb_refl;
    (destruct (Z.leb_spec (t + 150) now) as [H | H]; [clear H | lia]);
    hsimpl;
    do 2 eexists; (split; [reflexivity | ]); hsimpl;
    (split; [reflexivity | ]); (split; [ | reflexivity]);
    cbn; tauto.
Qed.

Lemma resize_timer_outlives_destroy_witness :
  exists s' l,
    run (built samplePage no_options)
      [WindowResize 0; Destroy; ResizeTimer 150] = Normal s' /\
    log s' = SetSize 800 600 :: l /\ In DisposeRenderer l.
Proof.
  edestruct (resize_timer_outlives_destroy (resolve_options no_options)
               (built samplePage no_options))
    with (t := 0%Z) (now := 150%Z) as (s' & l & H & Hl & Hin & _).
  - unfold running. split; [reflexivity | ]. repeat split; discriminate.
  - reflexivity.
  - reflexivity.
  - reflexivity.
  - lia.
  - exists s', l. split; [exact H | ]. split; [exact Hl | exact Hin].
Defined.

(** ** The pointer *)

Lemma unit_quotient (a w : Q) :
  0 < w -> 0 <= a -> a <= w -> 0 <= a / w /\ a / w <= 1.
Proof.
  intros Hw Ha Haw. split.
  - apply Qle_shift_div_l; [exact Hw | ]. ring_simplify. exact Ha.
  - apply Qle_shift_div_r; [exact Hw | ]. ring_simplify. exact Haw.
Qed.

(** X5. An accepted pointer event inside the container's rectangle is
    stored in normalised coordinates: both lie in [-1, 1], the left and
    bottom edges map to -1, the right and top edges to 1 (the vertical
    axis is flipped), and the throttle timer is set for 16 ms later. *)
Theorem pointer_normalised (s : State) (c : Container) (now : Z)
    (x y : Q) :
  container s = Some c -> mouseListener c = true ->
  handleMouseMove s = true -> mouseMoveTimeout s = None ->
  0 < rectWidth c -> 0 < rectHeight c ->
  rectLeft c <= x -> x <= rectLeft c + rectWidth c ->
  rectTop c <= y -> y <= rectTop c + rectHeight c ->
  exists s' mx my,
    step s (MouseMove now x y) = Normal s' /\
    mouse s' = (mx, my) /\
    log s' = PointerUpdate mx my :: log s /\
    mouseMoveTimeout s' = Some (now + 16)%Z /\
    - (1) <= mx /\ mx <= 1 /\ - (1) <= my /\ my <= 1 /\
    (x == rectLeft c -> mx == - (1)) /\
    (x == rectLeft c + rectWidth c -> mx == 1) /\
    (y == rectTop c -> my == 1) /\
    (y == rectTop c + rectHeight c -> my == - (1)).
Proof.
  intros Hc Hl Hh Ht Hw Hhh Hx1 Hx2 Hy1 Hy2.
  destruct s; hsimpl_all; subst. destruct c; hsimpl_all; subst.
  unfold onMouseMove; hsimpl.
  do 3 eexists. split; [reflexivity | ]. hsimpl.
  split; [reflexivity | ]. split; [reflexivity | ]. split; [reflexivity | ].
  assert (Hxw : 0 <= x - rectLeft0 /\ x - rectLeft0 <= rectWidth0).
  { split.
    - setoid_replace 0 with (rectLeft0 - rectLeft0) by ring.
      apply Qplus_le_compat; [exact Hx1 | apply Qle_refl].
    - setoid_replace rectWidth0 with (rectLeft0 + rectWidth0 - rectLeft0)
        by ring.
      apply Qplus_le_compat; [exact Hx2 | apply Qle_refl]. }
  assert (Hyh : 0 <= y - rectTop0 /\ y - rectTop0 <= rectHeight0).
  { split.
    - setoid_replace 0 with (rectTop0 - rectTop0) by ring.
      apply Qplus_le_compat; [exact Hy1 | apply Qle_refl].
    - setoid_replace rectHeight0 with (rectTop0 + rectHeight0 - rectTop0)
        by ring.
      apply Qplus_le_compat; [exact Hy2 | apply Qle_refl]. }
  destruct (unit_quotient _ _ Hw (proj1 Hxw) (proj2 Hxw)) as [Hu0 Hu1].
  destruct (unit_quotient _ _ Hhh (proj1 Hyh) (proj2 Hyh)) as [Hv0 Hv1].
  assert (Hwn : ~ rectWidth0 == 0)
    by (intros E; rewrite E in Hw; discriminate Hw).
  assert (Hhn : ~ rectHeight0 == 0)
    by (intros E; rewrite E in Hhh; discriminate Hhh).
  split; [lra | ]. split; [lra | ]. split; [lra | ]. split; [lra | ].
  split; [intros E; rewrite E; field; exact Hwn | ].
  split; [intros E; rewrite E; field; exact Hwn | ].
  split; [intros E; rewrite E; field; exact Hhn | ].
  intros E; rewrite E; field; exact Hhn.
Qed.

Lemma pointer_normalised_witness :
  exists s' mx my,
    step (built samplePage interactiveOptions) (MouseMove 0 200 150)
    = Normal s' /\
    mouse s' = (mx, my) /\
    - (1) <= mx /\ mx <= 1 /\ - (1) <= my /\ my <= 1.
Proof.
  edestruct (pointer_normalised (built samplePage interactiveOptions))
    with (now := 0%Z) (x := 200) (y := 150)
    as (s' & mx & my & H & Hm & _ & _ & H1 & H2 & H3 & H4 & _).
  - reflexivity.
  - reflexivity.
  - reflexivity.
  - reflexivity.
  - reflexivity.
  - reflexivity.
  - vm_compute. discriminate.
  - vm_compute. discriminate.
  - vm_compute. discriminate.
  - vm_compute. discriminate.
  - exists s', mx, my. repeat split; assumption.
Defined.

(** X6. The throttle reopens: on a container whose rectangle has a
    positive width and height, once the 16 ms timer of an accepted
    pointer event has been served, the next pointer event is accepted
    again, whatever its instant, and it is its position that is
    stored. *)
Theorem throttle_reopens (s : State) (c : Container) (t now t' : Z)
    (x y x' y' : Q) :
  container s = Some c -> mouseListener c = true ->
  handleMouseMove s = true -> mouseMoveTimeout s = None ->
  0 < rectWidth c -> 0 < rectHeight c ->
  (t + 16 <= now)%Z ->
  exists s',
    run s [MouseMove t x y; MouseTimer now; MouseMove t' x' y'] = Normal s' /\
    performed is_pointer_update s'
    = (2 + performed is_pointer_update s)%nat /\
    mouseMoveTimeout s' = Some (t' + 16)%Z /\
    mouse s'
    = ((x' - rectLeft c) / rectWidth c * 2 - 1,
       - ((y' - rectTop c) / rectHeight c) * 2 + 1).
Proof.
  intros Hc Hl Hh Ht _ _ Hn.
  destruct s; hsimpl_all; subst. destruct c; hsimpl_all; subst.
  unfold onMouseMove, mouseTimerFired, performed; hsimpl.
  destruct (Z.leb_spec (t + 16) now) as [H | H]; [clear H | lia].
  hsimpl. eexists. split; [reflexivity | ]. hsimpl.
  repeat split; reflexivity.
Qed.

Lemma throttle_reopens_witness :
  exists s',
    run (built samplePage interactiveOptions)
      [MouseMove 0 200 150; MouseTimer 16; MouseMove 16 400 300] = Normal s' /\
    performed is_pointer_update s' = 2%nat.
Proof.
  edestruct (throttle_reopens (built samplePage interactiveOptions))
    with (t := 0%Z) (now := 16%Z) (t' := 16%Z)
         (x := 200) (y := 150) (x' := 400) (y' := 300)
    as (s' & H & Hp & _).
  - reflexivity.
  - reflexivity.
  - reflexivity.
  - reflexivity.
  - reflexivity.
  - reflexivity.
  - lia.
  - exists s'. split; [exact H | exact Hp].
Defined.

(** ** The frame loop *)

Lemma frame_running (o : Config) (s : State) :
  running o s -> rafPending s <> None ->
  exists s' m,
    step s Frame = Normal s' /\ running o s' /\ rafPending s' <> None /\
    rafPending s' = rafId s' /\
    time s' = time s + fixedIncrement * rotationSpeed o /\
    material s' = Some m /\ uTime m = time s' /\
    performed is_draw s' = S (performed is_draw s) /\
    performed is_request_frame s' = S (performed is_request_frame s).
Proof.
  unfold running, performed.
  destruct s; hsimpl. intros (Ho & Hm & Hr & Hs & Hc) Hp. subst.
  destruct material0 as [m | ]; [ | contradiction].
  destruct renderer0 as [r | ]; [ | contradiction].
  destruct rafPending0 as [id | ]; [ | contradiction].
  unfold animate; hsimpl. destruct m; hsimpl.
  do 2 eexists. split; [reflexivity | ]. hsimpl.
  repeat split; try reflexivity; discriminate.
Qed.

(** X7. The frame loop keeps itself going: each frame served on a running
    instance advances the time by one increment, copies it to [uTime],
    draws exactly once and requests exactly one further frame, which
    [this.rafId] names. *)
Theorem frames_draw_once_each (o : Config) (n : nat) :
  forall s : State,
    running o s -> rafPending s <> None ->
    exists s',
      run s (List.repeat Frame n) = Normal s' /\
      running o s' /\ rafPending s' <> None /\
      time s' == time s
                 + inject_Z (Z.of_nat n) * (fixedIncrement * rotationSpeed o) /\
      performed is_draw s' = (n + performed is_draw s)%nat /\
      performed is_request_frame s'
      = (n + performed is_request_frame s)%nat /\
      (n <> O ->
       rafPending s' = rafId s' /\
       exists m, material s' = Some m /\ uTime m = time s').
Proof.
  induction n as [ | n IH]; intros s Hs Hp.
  - exists s. split; [reflexivity | ]. split; [exact Hs | ].
    split; [exact Hp | ]. split; [cbn; ring | ].
    split; [reflexivity | ]. split; [reflexivity | ]. intros H. contradiction.
  - destruct (frame_running o s Hs Hp)
      as (s1 & m1 & H1 & Hs1 & Hp1 & Hi1 & Ht1 & Hm1 & Hu1 & Hd1 & Hq1).
    destruct (IH s1 Hs1 Hp1) as (s2 & H2 & Hs2 & Hp2 & Ht2 & Hd2 & Hq2 & Hn2).
    exists s2. cbn [List.repeat run]. rewrite H1. cbn [bind].
    split; [exact H2 | ]. split; [exact Hs2 | ]. split; [exact Hp2 | ].
    split; [ | split; [ | split]].
    + rewrite Ht2, Ht1. rewrite Nat2Z.inj_succ. unfold Z.succ.
      rewrite inject_Z_plus. ring.
    + rewrite Hd2, Hd1. lia.
    + rewrite Hq2, Hq1. lia.
    + intros _. destruct n as [ | n'].
      * cbn in H2. injection H2 as <-. split; [exact Hi1 | ].
        exists m1. auto.
      * apply Hn2. discriminate.
Qed.

Lemma frames_draw_once_each_witness :
  exists s',
    run (built samplePage no_options) (List.repeat Frame 3) = Normal s' /\
    performed is_draw s' = 4%nat /\ rafPending s' <> None.
Proof.
  destruct (frames_draw_once_each (resolve_options no_options) 3
              (built samplePage no_options))
    as (s' & H & _ & Hp & _ & Hd & _).
  - unfold running. split; [reflexivity | ]. repeat split; discriminate.
  - discriminate.
  - exists s'. split; [exact H | ]. split; [exact Hd | exact Hp].
Defined.

(** ** Instances without a renderer *)

Lemma step_no_renderer (s s' : State) (e : Event) :
  renderer s = None -> rafPending s = None -> step s e = Normal s' ->
  renderer s' = None /\ rafPending s' = None /\
  performed is_draw s' = performed is_draw s /\
  performed is_set_size s' = performed is_set_size s /\
  performed is_request_frame s' = performed is_request_frame s.
Proof.
  unfold performed. destruct s; hsimpl. intros -> ->.
  destruct e as [ | t x y | t | t | t | w h | ]; hsimpl.
  - intros E; injection E as <-; hsimpl; auto.
  - destruct container0 as [c | ];
      [destruct c; hsimpl; destruct mouseListener0; destruct handleMouseMove0;
       hsimpl; [unfold onMouseMove; destruct mouseMoveTimeout0; hsimpl | .. ]
      | ];
      intros E; injection E as <-; hsimpl; auto.
  - unfold mouseTimerFired; hsimpl.
    destruct mouseMoveTimeout0 as [due | ]; [destruct (due <=? t)%Z | ];
      intros E; injection E as <-; hsimpl; auto.
  - destruct resizeListener0; destruct handleResize0;
      intros E; injection E as <-; hsimpl; auto.
  - unfold resizeTimerFired, resizeCallback; hsimpl.
    destruct resizePending0 as [due | ]; [destruct (due <=? t)%Z | ];
      intros E; injection E as <-; hsimpl; auto.
  - destruct container0 as [c | ];
      intros E; injection E as <-; hsimpl; auto.
  - unfold destroy; hsimpl.
    destruct rafId0 as [id | ]; hsimpl;
      (destruct options0 as [o | ]; hsimpl; [ | discriminate]);
      destruct (interactive o); destruct handleMouseMove0; hsimpl;
      try (destruct container0 as [c | ]; hsimpl; [ | discriminate]);
      destruct handleResize0; hsimpl;
      destruct material0 as [m | ]; hsimpl;
      destruct geometry0; hsimpl;
      intros E; injection E as <-; hsimpl; auto.
Qed.

Lemma run_no_renderer (es : list Event) :
  forall s s' : State,
    renderer s = None -> rafPending s = None -> run s es = Normal s' ->
    renderer s' = None /\ rafPending s' = None /\
    performed is_draw s' = performed is_draw s /\
    performed is_set_size s' = performed is_set_size s /\
    performed is_request_frame s' = performed is_request_frame s.
Proof.
  induction es as [ | e es IH]; intros s s' Hr Hp.
  - intros E; injection E as <-. auto.
  - cbn [run]. destruct (step s e) as [s1 | err] eqn:E1; [ | discriminate].
    cbn [bind]. intros E.
    destruct (step_no_renderer s s1 e Hr Hp E1) as (Hr1 & Hp1 & Hd1 & Hz1 & Hq1).
    destruct (IH s1 s' Hr1 Hp1 E) as (Hr2 & Hp2 & Hd2 & Hz2 & Hq2).
    repeat split; congruence.
Qed.

(** X8. When creating the renderer fails, the error is caught, logged and
    answered by the transparent background, and initialisation goes on:
    material, geometry, mesh and listeners are still created, but no
    frame is ever requested and nothing is ever drawn or resized,
    whatever events follow. *)
Theorem renderer_failure_keeps_building (p : Page) (opts : Options)
    (c : Container) (es : list Event) :
  element p = Some c -> webgl p = true -> rendererThrows p = true ->
  exists s c' s',
    construct p opts = Normal s /\
    renderer s = None /\ material s <> None /\ geometry s = true /\
    mesh s = true /\ resizeListener s = true /\
    handleMouseMove s = interactive (resolve_options opts) /\
    container s = Some c' /\ background c' = Some "transparent"%string /\
    hasCanvas c' = hasCanvas c /\
    In ConsoleError (log s) /\
    run s es = Normal s' /\
    performed is_draw s' = O /\ performed is_set_size s' = O /\
    performed is_request_frame s' = O.
Proof.
  intros He Hw Ht.
  destruct (construct_returns p opts) as (s & H & Hs).
  destruct (Hs c He) as [Ho Hc].
  destruct (run_assigned _ es s (conj Ho Hc)) as (s' & H' & _).
  revert H H'. clear Hs Ho Hc.
  unfold construct. rewrite He. destruct c.
  destruct ((clientWidth _ =? 0)%Z || (clientHeight _ =? 0)%Z);
    unfold init; hsimpl; rewrite Hw, Ht; hsimpl;
    destruct (interactive (resolve_options opts)) eqn:Ei; hsimpl;
    intros E H'; injection E as <-;
    (match type of H' with
     | run ?s0 es = _ =>
         destruct (run_no_renderer es s0 s' eq_refl eq_refl H')
           as (_ & _ & Hd & Hz & Hq)
     end);
    do 3 eexists; (split; [reflexivity | ]); hsimpl;
    (repeat (split; [first [reflexivity | discriminate | tauto] | ]));
    (split; [exact H' | ]); auto.
Qed.

Lemma renderer_failure_keeps_building_witness :
  exists s s',
    construct brokenPage no_options = Normal s /\
    renderer s = None /\ material s <> None /\
    run s [Frame; WindowResize 0; ResizeTimer 150; Frame] = Normal s' /\
    performed is_draw s' = O.
Proof.
  destruct (renderer_failure_keeps_building brokenPage no_options sampleBox
              [Frame; WindowResize 0; ResizeTimer 150; Frame]
              eq_refl eq_refl eq_refl)
    as (s & c' & s' & H & Hr & Hm & _ & _ & _ & _ & _ & _ & _ & _ & H' & Hd & _).
  exists s, s'. repeat split; assumption.
Defined.

(** ** A missing container *)

(** X9. When the container is not found the constructor logs one error
    and returns an instance on which nothing was assigned: no event
    other than [destroy()] changes it, [destroy()] throws a [TypeError],
    and the page's own caller never constructs it. *)
Theorem missing_container_is_inert (p : Page) (opts : Options)
    (es : list Event) :
  element p = None ->
  forallb (fun e => negb (is_destroy e)) es = true ->
  exists s,
    construct p opts = Normal s /\ log s = [ConsoleError] /\
    options s = None /\
    run s es = Normal s /\
    step s Destroy = Throw TypeError /\
    bootstrap p = Normal None.
Proof.
  intros He Hes. unfold construct, bootstrap. rewrite He.
  eexists. split; [reflexivity | ]. hsimpl.
  split; [reflexivity | ]. split; [reflexivity | ].
  split; [ | split; reflexivity].
  induction es as [ | e es IH]; [reflexivity | ].
  cbn [forallb] in Hes. apply andb_prop in Hes as [H1 H2].
  destruct e; try discriminate H1; cbn [run]; hsimpl; exact (IH H2).
Qed.

Lemma missing_container_is_inert_witness :
  exists s,
    construct emptyPage no_options = Normal s /\
    run s [Frame; MouseMove 0 1 1; WindowResize 0; ResizeTimer 150] = Normal s /\
    step s Destroy = Throw TypeError.
Proof.
  destruct (missing_container_is_inert emptyPage no_options
              [Frame; MouseMove 0 1 1; WindowResize 0; ResizeTimer 150]
              eq_refl eq_refl)
    as (s & H & _ & _ & Hr & Hd & _).
  exists s. repeat split; assumption.
Defined.

(** ** Option defaulting *)

Lemma or_num_truthy (v : option Q) (d : Q) :
  ~ d == 0 -> ~ or_num v d == 0.
Proof.
  intros Hd. unfold or_num. destruct v as [q | ]; [ | exact Hd].
  destruct (Qeq_bool q 0) eqn:E; [exact Hd | ].
  apply Qeq_bool_neq. exact E.
Qed.

Lemma or_str_truthy (v : option string) (d : string) :
  d <> EmptyString -> or_str v d <> EmptyString.
Proof.
  intros Hd. unfold or_str. destruct v as [[ | a w] | ];
    [exact Hd | discriminate | exact Hd].
Qed.

(** X10. Whatever the options bag, no resolved option with a non-zero
    default is ever zero and no resolved string is empty: a zero or an
    empty string cannot be chosen (the film grain, for one, cannot be
    switched off with [noiseIntensity: 0]); [pillarRotation], whose
    default is zero, is the given number in every case. *)
Theorem resolved_options_truthy (opts : Options) :
  let o := resolve_options opts in
  ~ intensity o == 0 /\ ~ rotationSpeed o == 0 /\ ~ glowAmount o == 0 /\
  ~ pillarWidth o == 0 /\ ~ pillarHeight o == 0 /\
  ~ noiseIntensity o == 0 /\
  topColor o <> EmptyString /\ bottomColor o <> EmptyString /\
  mixBlendMode o <> EmptyString /\
  (forall q, o_pillarRotation opts = Some q -> pillarRotation o == q) /\
  (o_pillarRotation opts = None -> pillarRotation o = 0).
Proof.
  cbn [resolve_options intensity rotationSpeed glowAmount pillarWidth
       pillarHeight noiseIntensity topColor bottomColor mixBlendMode
       pillarRotation].
  repeat (split; [first [apply or_num_truthy; discriminate
                        | apply or_str_truthy; discriminate] | ]).
  split.
  - intros q ->. unfold or_num. destruct (Qeq_bool q 0) eqn:E;
      [ | reflexivity].
    apply Qeq_bool_eq in E. symmetry. exact E.
  - intros ->. reflexivity.
Qed.

(** ** Repeated [destroy()] *)

Lemma destroy_counts (o : Config) (s : State) (c : Container) :
  options s = Some o -> container s = Some c ->
  exists s' c',
    destroy s = Normal s' /\ options s' = Some o /\
    container s' = Some c' /\
    renderer s' = renderer s /\ rafId s' = rafId s /\
    hasCanvas c' = match renderer s with
                   | Some _ => false
                   | None => hasCanvas c
                   end /\
    performed is_remove_canvas s'
    = (performed is_remove_canvas s
       + match renderer s with
         | Some _ => if hasCanvas c then 1 else 0
         | None => 0
         end)%nat /\
    performed is_dispose_renderer s'
    = (performed is_dispose_renderer s + holds_renderer s)%nat /\
    performed is_cancel_frame s'
    = (performed is_cancel_frame s
       + match rafId s with Some _ => 1 | None => 0 end)%nat.
Proof.
  destruct s; cbn [options container]. intros -> ->. destruct c.
  unfold destroy, holds_renderer, performed.
  destruct rafId0 as [id | ];
    [destruct rafPending0 as [pending | ];
       [hsimpl; destruct (Pos.eqb pending id) | ] | ];
    hsimpl;
    destruct (interactive o); destruct handleMouseMove0; hsimpl;
    destruct handleResize0; hsimpl;
    (destruct renderer0 as [r | ]; [destruct hasCanvas0 | ]); hsimpl;
    destruct material0 as [m | ]; hsimpl;
    destruct geometry0; hsimpl;
    do 2 eexists; (split; [reflexivity | ]); hsimpl;
    repeat split; lia.
Qed.

Lemma destroys_counts (o : Config) (n : nat) :
  forall (s : State) (c : Container),
    options s = Some o -> container s = Some c ->
    renderer s <> None -> rafId s <> None -> hasCanvas c = false ->
    exists s',
      destroys n s = Normal s' /\
      performed is_remove_canvas s' = performed is_remove_canvas s /\
      performed is_dispose_renderer s'
      = (performed is_dispose_renderer s + n)%nat /\
      performed is_cancel_frame s' = (performed is_cancel_frame s + n)%nat.
Proof.
  induction n as [ | n IH]; intros s c Ho Hc Hr Hi Hh.
  - exists s. cbn [destroys]. repeat split; lia.
  - destruct (destroy_counts o s c Ho Hc)
      as (s1 & c1 & H1 & Ho1 & Hc1 & Hr1 & Hi1 & Hh1 & Hx1 & Hd1 & Hq1).
    assert (Hh1' : hasCanvas c1 = false).
    { rewrite Hh1. destruct (renderer s); [reflexivity | exact Hh]. }
    destruct (IH s1 c1 Ho1 Hc1) as (s2 & H2 & Hx2 & Hd2 & Hq2);
      [congruence | congruence | exact Hh1' | ].
    exists s2. cbn [destroys]. rewrite H1. cbn [bind].
    split; [exact H2 | ].
    rewrite Hx2, Hd2, Hq2, Hx1, Hd1, Hq1. rewrite Hh.
    unfold holds_renderer.
    destruct (renderer s); [ | contradiction].
    destruct (rafId s); [ | contradiction].
    repeat split; lia.
Qed.

(** X11. However often [destroy()] is called on a fully initialised
    instance, the canvas leaves the container exactly once, with the
    first call, while every call disposes of the renderer and cancels
    the frame that [this.rafId] names again. *)
Theorem canvas_removed_once (p : Page) (opts : Options) (c : Container)
    (n : nat) :
  element p = Some c -> webgl p = true -> rendererThrows p = false ->
  exists s s',
    construct p opts = Normal s /\
    destroys (S n) s = Normal s' /\
    performed is_remove_canvas s' = 1%nat /\
    performed is_dispose_renderer s' = S n /\
    performed is_cancel_frame s' = S n.
Proof.
  intros He Hw Ht.
  assert (H0 : exists s c',
             construct p opts = Normal s /\
             options s = Some (resolve_options opts) /\
             container s = Some c' /\ hasCanvas c' = true /\
             renderer s <> None /\ rafId s <> None /\
             performed is_remove_canvas s = O /\
             performed is_dispose_renderer s = O /\
             performed is_cancel_frame s = O).
  { unfold construct, performed. rewrite He. destruct c.
    destruct ((clientWidth _ =? 0)%Z || (clientHeight _ =? 0)%Z);
      unfold init; hsimpl; rewrite Hw, Ht; hsimpl;
      destruct (interactive (resolve_options opts)) eqn:Ei; hsimpl;
      do 2 eexists; (split; [reflexivity | ]); hsimpl;
      repeat split; first [reflexivity | discriminate]. }
  destruct H0 as (s & c' & H & Ho & Hc & Hh & Hr & Hi & Hx & Hd & Hq).
  destruct (destroy_counts _ s c' Ho Hc)
    as (s1 & c1 & H1 & Ho1 & Hc1 & Hr1 & Hi1 & Hh1 & Hx1 & Hd1 & Hq1).
  assert (Hh1' : hasCanvas c1 = false).
  { rewrite Hh1. destruct (renderer s); [reflexivity | contradiction]. }
  destruct (destroys_counts _ n s1 c1 Ho1 Hc1) as (s2 & H2 & Hx2 & Hd2 & Hq2);
    [congruence | congruence | exact Hh1' | ].
  exists s, s2. split; [exact H | ].
  cbn [destroys]. rewrite H1. cbn [bind]. split; [exact H2 | ].
  rewrite Hx2, Hd2, Hq2, Hx1, Hd1, Hq1, Hx, Hd, Hq, Hh.
  unfold holds_renderer.
  destruct (renderer s); [ | contradiction].
  destruct (rafId s); [ | contradiction].
  repeat split; lia.
Qed.

Lemma canvas_removed_once_witness :
  exists s s',
    construct samplePage no_options = Normal s /\
    destroys 3 s = Normal s' /\
    performed is_remove_canvas s' = 1%nat /\
    performed is_dispose_renderer s' = 3%nat.
Proof.
  destruct (canvas_removed_once samplePage no_options sampleBox 2
              eq_refl eq_refl eq_refl)
    as (s & s' & H & H' & Hx & Hd & _).
  exists s, s'. repeat split; assumption.
Defined.

(** ** Instances that are not interactive *)

Lemma step_untracked (o : Config) (s : State) (e : Event) :
  settled o s -> interactive o = false ->
  exists s', step s e = Normal s' /\ settled o s' /\
             mouse s' = mouse s /\
             performed is_pointer_update s' = performed is_pointer_update s.
Proof.
  intros Hs Hi.
  destruct (step_settled o s e Hs) as (s' & H & Hs').
  exists s'. split; [exact H | ]. split; [exact Hs' | ].
  revert H. clear Hs'. unfold settled in Hs. unfold performed.
  destruct s; hsimpl_all.
  destruct Hs as (Ho & (c & Hc & Hl) & Hraf & Hr). subst.
  destruct c; hsimpl_all.
  destruct e as [ | t x y | t | t | t | w h | ]; hsimpl.
  - destruct rafPending0 as [id | ];
      [unfold animate; hsimpl;
       destruct material0 as [m | ]; hsimpl;
       [destruct renderer0 as [r | ]; hsimpl;
        [destruct scene0; destruct camera0 | ] | ] | ]; hsimpl;
      intros E; injection E as <-; hsimpl; auto.
  - destruct mouseListener0;
      [destruct (Hl eq_refl) as [Hl1 _]; congruence | ].
    hsimpl. intros E; injection E as <-; hsimpl; auto.
  - unfold mouseTimerFired; hsimpl.
    destruct mouseMoveTimeout0 as [due | ]; [destruct (due <=? t)%Z | ];
      intros E; injection E as <-; hsimpl; auto.
  - destruct resizeListener0; destruct handleResize0;
      intros E; injection E as <-; hsimpl; auto.
  - unfold resizeTimerFired, resizeCallback; hsimpl.
    destruct resizePending0 as [due | ]; hsimpl;
      [destruct (due <=? t)%Z; hsimpl;
       [destruct renderer0; hsimpl; [destruct material0; hsimpl | ] | ] | ];
      intros E; injection E as <-; hsimpl; auto.
  - intros E; injection E as <-; hsimpl; auto.
  - unfold destroy; hsimpl.
    destruct rafId0 as [id | ];
      [destruct rafPending0 as [pending | ];
         [hsimpl; destruct (Pos.eqb pending id) | ] | ];
      hsimpl; rewrite ?Hi; hsimpl;
      destruct handleResize0; hsimpl;
      (destruct renderer0 as [r | ]; [destruct hasCanvas0 | ]); hsimpl;
      destruct material0 as [m | ]; hsimpl;
      destruct geometry0; hsimpl;
      intros E; injection E as <-; hsimpl; auto.
Qed.

Lemma run_untracked (o : Config) (es : list Event) :
  forall s : State,
    settled o s -> interactive o = false ->
    exists s', run s es = Normal s' /\ mouse s' = mouse s /\
               performed is_pointer_update s'
               = performed is_pointer_update s.
Proof.
  induction es as [ | e es IH]; intros s Hs Hi.
  - exists s. auto.
  - destruct (step_untracked o s e Hs Hi) as (s1 & H1 & Hs1 & Hm1 & Hp1).
    destruct (IH s1 Hs1 Hi) as (s2 & H2 & Hm2 & Hp2).
    exists s2. cbn [run]. rewrite H1. cbn [bind].
    split; [exact H2 | ]. split; congruence.
Qed.

(** X12. An instance whose resolved [interactive] option is false never
    follows the pointer: whatever events arrive, pointer moves included,
    [this.mouse] stays at the origin and no pointer update is made. *)
Theorem noninteractive_never_tracks (p : Page) (opts : Options)
    (c : Container) (es : list Event) :
  element p = Some c -> mouseListener c = false ->
  interactive (resolve_options opts) = false ->
  exists s s',
    construct p opts = Normal s /\ run s es = Normal s' /\
    mouse s' = (0, 0) /\ performed is_pointer_update s' = O.
Proof.
  intros He Hl Hi.
  destruct (construct_settled p opts c He Hl) as (s & H & Hs).
  destruct (run_untracked _ es s Hs Hi) as (s' & H' & Hm & Hp).
  exists s, s'. split; [exact H | ]. split; [exact H' | ].
  rewrite Hm, Hp. revert H. clear.
  unfold construct, performed. destruct (element p) as [c | ].
  - destruct c.
    destruct ((clientWidth _ =? 0)%Z || (clientHeight _ =? 0)%Z);
      unfold init; hsimpl;
      destruct (webgl p); hsimpl;
      destruct (rendererThrows p); hsimpl;
      destruct (interactive (resolve_options opts)); hsimpl;
      intros E; injection E as <-; hsimpl; auto.
  - intros E; injection E as <-; hsimpl; auto.
Qed.

Lemma noninteractive_never_tracks_witness :
  exists s s',
    construct samplePage no_options = Normal s /\
    run s burst = Normal s' /\
    mouse s' = (0, 0) /\ performed is_pointer_update s' = O.
Proof.
  exact (noninteractive_never_tracks samplePage no_options sampleBox burst
           eq_refl eq_refl eq_refl).
Defined.

(** X13. On a page that has the container, the page's own caller
    builds an instance whose resolved options are those of lines
    345-357, which defines no pointer handler and never follows the
    pointer, whatever events arrive. *)
Theorem bootstrap_page_instance (p : Page) (c : Container)
    (es : list Event) :
  element p = Some c -> mouseListener c = false ->
  exists s s',
    bootstrap p = Normal (Some s) /\
    options s
    = Some (mkConfig "#5227FF" "#FF9FFC" 1 (3 # 10) false (5 # 1000) 3
              (4 # 10) (5 # 10) 0 "normal") /\
    handleMouseMove s = false /\
    run s es = Normal s' /\
    mouse s' = (0, 0) /\ performed is_pointer_update s' = O.
Proof.
  intros He Hl.
  destruct (construct_settled p pageOptions c He Hl) as (s & H & Hs).
  destruct (run_untracked _ es s Hs eq_refl) as (s' & H' & Hm & Hp).
  exists s, s'. unfold bootstrap. rewrite He, H. cbn [bind].
  split; [reflexivity | ].
  split; [destruct Hs as [Ho _]; rewrite Ho; reflexivity | ].
  rewrite Hm, Hp. split; [ | split; [exact H' | ]];
    revert H; clear - He; unfold construct, performed; rewrite He;
    destruct c;
    (destruct ((clientWidth _ =? 0)%Z || (clientHeight _ =? 0)%Z);
     unfold init; hsimpl;
     destruct (webgl p); hsimpl;
     destruct (rendererThrows p); hsimpl;
     intros E; injection E as <-; hsimpl; auto).
Qed.

Lemma bootstrap_page_instance_witness :
  exists s s',
    bootstrap samplePage = Normal (Some s) /\
    run s burst = Normal s' /\ mouse s' = (0, 0).
Proof.
  destruct (bootstrap_page_instance samplePage sampleBox burst
              eq_refl eq_refl)
    as (s & s' & H & _ & _ & H' & Hm & _).
  exists s, s'. repeat split; assumption.
Defined.

End HostExtras.
